(** * Hautū Waka build script: a shallow embedding of [build.py]

    The build script turns five JSON documents into one HTML page.  Its core
    is string assembly: a slug function ([make_id]), four section renderers,
    a projection of the stages for the client-side overlay, and the final
    substitution of five placeholder tokens in a template.

    Python's [str] is a sequence of Unicode code points, and two of the
    functions ([str.lower], [str.title]) depend on the Unicode character
    database, so strings are lists of code points here and the database is a
    parameter of the development. *)

From Stdlib Require Import NArith String Ascii.
From stdpp Require Import gmap list option.

Local Open Scope N_scope.

(** ** Strings *)

(** A Python [str]: a list of code points. *)
Abbreviation str := (list N).

(** Literals of the script.  A Rocq string literal cannot hold a lone double
    quote, so the literals below write a backquote where [build.py] has the
    double quote (U+0022); the script has no backquote of its own. *)
Definition html_char (a : ascii) : N :=
  if Ascii.eqb a "`" then 34 else N_of_ascii a.

Definition html (s : string) : str := html_char <$> list_ascii_of_string s.

(** U+2014, the dash in front of a source item's detail. *)
Definition em_dash : N := 8212.

(** *** [str.replace]

    [s.replace(old, new)] scans [s] from the left and replaces every
    occurrence of [old] that does not overlap an earlier one.  [skip] counts
    the characters of a matched occurrence that are still to be passed over.
    With an empty [old], Python puts [new] before every character and at the
    end. *)
Fixpoint is_prefix (p s : str) : bool :=
  match p, s with
  | [], _ => true
  | _ :: _, [] => false
  | a :: p', b :: s' => (a =? b) && is_prefix p' s'
  end.

Fixpoint replace_from (old new : str) (skip : nat) (s : str) : str :=
  match s with
  | [] => []
  | c :: s' =>
      match skip with
      | S k => replace_from old new k s'
      | O =>
          if is_prefix old s
          then new ++ replace_from old new (length old - 1) s'
          else c :: replace_from old new 0 s'
      end
  end.

Definition replace (s old new : str) : str :=
  match old with
  | [] => new ++ (s ≫= λ c, c :: new)
  | _ :: _ => replace_from old new 0 s
  end.

(** Whether [old] occurs in [s] as a substring (Python's [old in s]). *)
Fixpoint occurs (old s : str) : bool :=
  match s with
  | [] => is_prefix old []
  | _ :: s' => is_prefix old s || occurs old s'
  end.

(** *** Case conversion

    The parts of the Unicode character database that CPython's [str.lower]
    and [str.title] read: the full lower-case and title-case mappings of a
    code point, and the properties Cased and Case_Ignorable. *)
Record UnicodeData := {
  to_lower : N → str;
  to_title : N → str;
  is_cased : N → bool;
  is_case_ignorable : N → bool
}.

(** U+03A3, Greek capital sigma: the one character whose lower case depends
    on its neighbours. *)
Definition capital_sigma : N := 931.
Definition small_sigma : N := 963.
Definition small_final_sigma : N := 962.

Section CaseConversion.
Context (ucd : UnicodeData).

(** The first character that is not case-ignorable, if any. *)
Fixpoint skip_ignorable (s : str) : option N :=
  match s with
  | [] => None
  | c :: s' => if is_case_ignorable ucd c then skip_ignorable s' else Some c
  end.

(** [handle_capital_sigma]: sigma is final when a cased letter comes before
    it and none after it, case-ignorable characters aside.  [before] is
    the text before the sigma, nearest character first. *)
Definition final_sigma (before after : str) : bool :=
  match skip_ignorable before with
  | None => false
  | Some c =>
      is_cased ucd c &&
      match skip_ignorable after with
      | None => true
      | Some d => negb (is_cased ucd d)
      end
  end.

(** [lower_ucs4]. *)
Definition lower_at (before : str) (c : N) (after : str) : str :=
  if c =? capital_sigma
  then [if final_sigma before after then small_final_sigma else small_sigma]
  else to_lower ucd c.

Fixpoint lower_from (before s : str) : str :=
  match s with
  | [] => []
  | c :: s' => lower_at before c s' ++ lower_from (c :: before) s'
  end.

(** [s.lower()]. *)
Definition lower (s : str) : str := lower_from [] s.

Fixpoint title_from (previous_is_cased : bool) (before s : str) : str :=
  match s with
  | [] => []
  | c :: s' =>
      (if previous_is_cased then lower_at before c s' else to_title ucd c)
      ++ title_from (is_cased ucd c) (c :: before) s'
  end.

(** [s.title()]. *)
Definition title (s : str) : str := title_from false [] s.

(** ** The slug function *)

(** [make_id(name)], line 35. *)
Definition make_id (name : str) : str :=
  replace
    (replace
       (replace
          (replace
             (replace (lower name) (html " ") (html "-"))
             (html "(") (html ""))
          (html ")") (html ""))
       (html "/") (html "-"))
    (html "'") (html "").

End CaseConversion.

(** The database restricted to Basic Latin and the Greek letters alpha to
    omega; every other code point is taken as uncased and mapped to itself.
    It is what the examples are evaluated with. *)
Definition in_range (lo hi c : N) : bool := (lo <=? c) && (c <=? hi).

Definition greek_capital (c : N) : bool :=
  in_range 913 937 c && negb (c =? 930).

Definition greek_small (c : N) : bool := in_range 945 969 c.

Definition latin_greek : UnicodeData := {|
  to_lower c :=
    if in_range 65 90 c || greek_capital c then [c + 32] else [c];
  to_title c :=
    if c =? small_final_sigma then [capital_sigma]
    else if in_range 97 122 c || greek_small c then [c - 32] else [c];
  is_cased c :=
    in_range 65 90 c || in_range 97 122 c || greek_capital c || greek_small c;
  is_case_ignorable c :=
    bool_decide (c ∈ [39; 46; 58; 94; 96])
|}.


(** ** The content records

    The JSON documents, as the script reads them.  A field the script reads
    with [record["key"]] is a field here; a field it reads with
    [record.get("key")] or tests with ["key" in record] is an [option]. *)

Module IntroSection.
Record t := { heading : str; content : str }.
End IntroSection.

Module Attribution.
Record t := { primary : str; organisations : str }.
End Attribution.

Module Intro.
Record t := {
  title : str;
  subtitle : str;
  hook : str;
  sections : list IntroSection.t;
  video : option str;
  attribution : Attribution.t
}.
End Intro.

Module Stage.
Record t {Hotspot : Type} := {
  id : str;
  name_maori : str;
  name_english : str;
  as_stage : str;
  as_state : str;
  reflection_questions : list str;
  tools : list str;
  hotspot : Hotspot
}.
Arguments t : clear implicits.
End Stage.

Module Tool.
Record t := {
  id : str;
  name : str;
  description : str;
  video : option str;
  stages : list str;
  muscles : list str
}.
End Tool.

Module Muscle.
Record t := { id : str; name : str; description : str; tools : list str }.
End Muscle.

Module Dimension.
Record t := {
  id : str;
  name : str;
  name_english : str;
  description : str;
  muscles : list Muscle.t
}.
End Dimension.

Module Muscles.
Record t := { intro : str; dimensions : list Dimension.t }.
End Muscles.

Module Item.
Record t := {
  title : option str;
  name : option str;
  author : option str;
  role : option str;
  description : option str;
  link : option str
}.
End Item.

Module Category.
Record t := { name : str; description : str; items : list Item.t }.
End Category.

Module Sources.
Record t := { intro : str; categories : list Category.t }.
End Sources.

(** The dicts that [build_stage_overlay_data] builds. *)
Module ToolRef.
Record t := { id : str; name : str }.
End ToolRef.

Module StageOverlay.
Record t {Hotspot : Type} := {
  id : str;
  name_maori : str;
  name_english : str;
  as_stage : str;
  as_state : str;
  reflection_questions : list str;
  tools : list ToolRef.t;
  hotspot : Hotspot
}.
Arguments t : clear implicits.
End StageOverlay.

(** [record.get("key")] in a condition: the key is there and its value is not
    the empty string. *)
Definition truthy (field : option str) : option str :=
  match field with
  | Some (c :: v) => Some (c :: v)
  | _ => None
  end.

(** The five placeholder tokens of the template. *)
Definition INTRO_SECTION : str := html "{{INTRO_SECTION}}".
Definition TOOLS_SECTION : str := html "{{TOOLS_SECTION}}".
Definition MUSCLES_SECTION : str := html "{{MUSCLES_SECTION}}".
Definition SOURCES_SECTION : str := html "{{SOURCES_SECTION}}".
Definition STAGE_DATA : str := html "{{STAGE_DATA}}".

(** ** The cross-reference lookups

    [{t["id"]: t for t in tools}] and [{s["id"]: s for s in stages}], lines
    250 and 251: the records are put into the dict one after the other. *)
Definition tools_lookup_of (tools : list Tool.t) : gmap str Tool.t :=
  foldl (λ lookup t, <[Tool.id t := t]> lookup) ∅ tools.

Definition stages_lookup_of {Hotspot} (stages : list (Stage.t Hotspot))
  : gmap str (Stage.t Hotspot) :=
  foldl (λ lookup s, <[Stage.id s := s]> lookup) ∅ stages.

(** ** The renderers *)

Section Renderers.
Context (ucd : UnicodeData).
Context {Hotspot : Type}.

(** [json.dumps(_, indent=2)] on the list of overlay dicts: the serializer
    is the standard library's and is taken as given. *)
Context (json_dumps : list (StageOverlay.t Hotspot) → str).

(** *** [build_intro_html], lines 38 to 71 *)

Definition intro_block (section : IntroSection.t) : str :=
  html "
        <div class=`intro-block`>
            <h3>" ++ IntroSection.heading section ++ html "</h3>
            <p>" ++ IntroSection.content section ++ html "</p>
        </div>
        ".

Definition intro_video_html (video : option str) : str :=
  match truthy video with
  | Some src => html "
        <div class=`video-embed`>
            <iframe src=`" ++ src ++ html "` frameborder=`0` allowfullscreen></iframe>
        </div>
        "
  | None => html ""
  end.

(** The loop of lines 40 to 47. *)
Definition sections_html_of (sections : list IntroSection.t) : str :=
  foldl (λ sections_html section, sections_html ++ intro_block section)
    (html "") sections.

Definition build_intro_html (intro : Intro.t) : str :=
  let sections_html := sections_html_of (Intro.sections intro) in
  let video_html := intro_video_html (Intro.video intro) in
  html "
    <section id=`introduction` class=`section section-intro`>
        <div class=`container`>
            <h1>" ++ Intro.title intro ++ html "</h1>
            <p class=`subtitle`>" ++ Intro.subtitle intro ++ html "</p>
            <p class=`hook`>" ++ Intro.hook intro ++ html "</p>
            " ++ sections_html ++ html "
            " ++ video_html ++ html "
            <div class=`attribution`>
                <p>" ++ Attribution.primary (Intro.attribution intro) ++ html "</p>
                <p>" ++ Attribution.organisations (Intro.attribution intro) ++ html "</p>
            </div>
        </div>
    </section>
    ".

(** *** [build_stage_overlay_data], lines 74 to 89

    [tool_names] (line 78) is computed and never read; it is left out. *)

Definition overlay_tools (tools_lookup : gmap str Tool.t) (tools : list str)
  : list ToolRef.t :=
  omap (λ t, (λ tool, {| ToolRef.id := t; ToolRef.name := Tool.name tool |})
               <$> tools_lookup !! t) tools.

Definition overlay_of (tools_lookup : gmap str Tool.t)
    (stage : Stage.t Hotspot) : StageOverlay.t Hotspot := {|
  StageOverlay.id := Stage.id stage;
  StageOverlay.name_maori := Stage.name_maori stage;
  StageOverlay.name_english := Stage.name_english stage;
  StageOverlay.as_stage := Stage.as_stage stage;
  StageOverlay.as_state := Stage.as_state stage;
  StageOverlay.reflection_questions := Stage.reflection_questions stage;
  StageOverlay.tools := overlay_tools tools_lookup (Stage.tools stage);
  StageOverlay.hotspot := Stage.hotspot stage
|}.

(** The list [stage_data] at the end of the loop. *)
Definition stage_overlay_records (stages : list (Stage.t Hotspot))
    (tools_lookup : gmap str Tool.t) : list (StageOverlay.t Hotspot) :=
  foldl (λ stage_data stage, stage_data ++ [overlay_of tools_lookup stage])
    [] stages.

Definition build_stage_overlay_data (stages : list (Stage.t Hotspot))
    (tools_lookup : gmap str Tool.t) : str :=
  json_dumps (stage_overlay_records stages tools_lookup).

(** *** [build_tools_html], lines 92 to 143 *)

Definition stage_badge (stage : Stage.t Hotspot) : str :=
  html "<span class=`badge badge-stage`>" ++ Stage.name_maori stage
  ++ html "</span> ".

Definition stage_badges_of (stages_lookup : gmap str (Stage.t Hotspot))
    (stages : list str) : str :=
  foldl (λ stage_badges stage_id,
           match stages_lookup !! stage_id with
           | Some stage => stage_badges ++ stage_badge stage
           | None => stage_badges
           end)
    (html "") stages.

Definition muscle_link (muscle_id : str) : str :=
  let muscle_name := title ucd (replace muscle_id (html "-") (html " ")) in
  html "<a href=`#muscle-" ++ muscle_id ++ html "` class=`muscle-link`>"
  ++ muscle_name ++ html "</a> ".

Definition muscle_links_of (muscles : list str) : str :=
  foldl (λ muscle_links muscle_id, muscle_links ++ muscle_link muscle_id)
    (html "") muscles.

Definition tool_video_html (video : option str) : str :=
  match truthy video with
  | Some src => html "
            <div class=`video-embed`>
                <iframe src=`" ++ src ++ html "` frameborder=`0` allowfullscreen></iframe>
            </div>
            "
  | None => html ""
  end.

Definition tool_entry (stages_lookup : gmap str (Stage.t Hotspot))
    (tool : Tool.t) : str :=
  let stage_badges := stage_badges_of stages_lookup (Tool.stages tool) in
  let muscle_links := muscle_links_of (Tool.muscles tool) in
  let video_html := tool_video_html (Tool.video tool) in
  html "
        <div id=`tool-" ++ Tool.id tool ++ html "` class=`tool-entry`>
            <h3>" ++ Tool.name tool ++ html "</h3>
            <p class=`description`>" ++ Tool.description tool ++ html "</p>
            " ++ video_html ++ html "
            <div class=`meta`>
                <div class=`stages`>
                    <span class=`meta-label`>Used in:</span> " ++ stage_badges ++ html "
                </div>
                <div class=`muscles`>
                    <span class=`meta-label`>Develops:</span> " ++ muscle_links ++ html "
                </div>
            </div>
        </div>
        ".

(** The loop of lines 94 to 131. *)
Definition tools_html_of (stages_lookup : gmap str (Stage.t Hotspot))
    (tools : list Tool.t) : str :=
  foldl (λ tools_html tool, tools_html ++ tool_entry stages_lookup tool)
    (html "") tools.

Definition build_tools_html (tools : list Tool.t)
    (stages_lookup : gmap str (Stage.t Hotspot)) : str :=
  let tools_html := tools_html_of stages_lookup tools in
  html "
    <section id=`tools` class=`section section-tools`>
        <div class=`container`>
            <h2>Tools</h2>
            <p class=`section-intro`>Processes and methods that help navigate each stage. Click a muscle name to see what it means.</p>
            <div class=`tools-list`>
                " ++ tools_html ++ html "
            </div>
        </div>
    </section>
    ".

(** *** [build_muscles_html], lines 146 to 192 *)

Definition no_tools : str :=
  html "<span class=`no-tools`>No specific tools mapped</span>".

Definition tool_link (tool_id : str) (tool : Tool.t) : str :=
  html "<a href=`#tool-" ++ tool_id ++ html "` class=`tool-link`>"
  ++ Tool.name tool ++ html "</a> ".

Definition tool_links_of (tools_lookup : gmap str Tool.t) (tools : list str)
  : str :=
  match tools with
  | _ :: _ =>
      foldl (λ tool_links tool_id,
               match tools_lookup !! tool_id with
               | Some tool => tool_links ++ tool_link tool_id tool
               | None => tool_links
               end)
        (html "") tools
  | [] => no_tools
  end.

Definition muscle_entry (tools_lookup : gmap str Tool.t) (muscle : Muscle.t)
  : str :=
  let tool_links := tool_links_of tools_lookup (Muscle.tools muscle) in
  html "
            <div id=`muscle-" ++ Muscle.id muscle ++ html "` class=`muscle-entry`>
                <h4>" ++ Muscle.name muscle ++ html "</h4>
                <p class=`description`>" ++ Muscle.description muscle ++ html "</p>
                <div class=`meta`>
                    <span class=`meta-label`>Developed by:</span> " ++ tool_links ++ html "
                </div>
            </div>
            ".

(** The inner loop, lines 151 to 170. *)
Definition muscles_html_of (tools_lookup : gmap str Tool.t)
    (muscles : list Muscle.t) : str :=
  foldl (λ muscles_html muscle,
           muscles_html ++ muscle_entry tools_lookup muscle)
    (html "") muscles.

Definition dimension_entry (tools_lookup : gmap str Tool.t)
    (dimension : Dimension.t) : str :=
  let muscles_html :=
    muscles_html_of tools_lookup (Dimension.muscles dimension) in
  html "
        <div class=`dimension` id=`dimension-" ++ Dimension.id dimension ++ html "`>
            <h3>" ++ Dimension.name dimension ++ html " <span class=`dimension-english`>(" ++ Dimension.name_english dimension ++ html ")</span></h3>
            <p class=`dimension-description`>" ++ Dimension.description dimension ++ html "</p>
            <div class=`muscles-list`>
                " ++ muscles_html ++ html "
            </div>
        </div>
        ".

(** The outer loop, lines 148 to 180. *)
Definition dimensions_html_of (tools_lookup : gmap str Tool.t)
    (dimensions : list Dimension.t) : str :=
  foldl (λ dimensions_html dimension,
           dimensions_html ++ dimension_entry tools_lookup dimension)
    (html "") dimensions.

Definition build_muscles_html (muscles_data : Muscles.t)
    (tools_lookup : gmap str Tool.t) : str :=
  let dimensions_html :=
    dimensions_html_of tools_lookup (Muscles.dimensions muscles_data) in
  html "
    <section id=`muscles` class=`section section-muscles`>
        <div class=`container`>
            <h2>Muscles</h2>
            <p class=`section-intro`>" ++ Muscles.intro muscles_data ++ html "</p>
            <div class=`dimensions`>
                " ++ dimensions_html ++ html "
            </div>
        </div>
    </section>
    ".

(** *** [build_sources_html], lines 195 to 243

    [item["name"]] raises [KeyError] on an item that has neither a title nor
    a name; [None] stands for that exception. *)

Definition item_detail (field : str) : str :=
  html " " ++ em_dash :: html " " ++ field.

(** Lines 203 to 216: the pair [(name, detail)]. *)
Definition item_name_detail (item : Item.t) : option (str * str) :=
  match Item.title item with
  | Some title =>
      let detail :=
        match truthy (Item.author item) with
        | Some author => item_detail author
        | None => html ""
        end in
      Some (title, detail)
  | None =>
      name ← Item.name item;
      let detail :=
        match truthy (Item.author item) with
        | Some author => item_detail author
        | None =>
            match truthy (Item.role item) with
            | Some role => item_detail role
            | None =>
                match truthy (Item.description item) with
                | Some description => item_detail description
                | None => html ""
                end
            end
        end in
      Some (name, detail)
  end.

Definition item_entry (item : Item.t) : option str :=
  '(name, detail) ← item_name_detail item;
  match truthy (Item.link item) with
  | Some link =>
      Some (html "<li><a href=`" ++ link ++ html "` target=`_blank`>" ++ name
            ++ html "</a>" ++ detail ++ html "</li>")
  | None => Some (html "<li>" ++ name ++ detail ++ html "</li>")
  end.

Fixpoint items_loop (items_html : str) (items : list Item.t) : option str :=
  match items with
  | [] => Some items_html
  | item :: items' =>
      entry ← item_entry item;
      items_loop (items_html ++ entry) items'
  end.

Definition category_entry (category : Category.t) : option str :=
  items_html ← items_loop (html "") (Category.items category);
  Some (html "
        <div class=`source-category`>
            <h3>" ++ Category.name category ++ html "</h3>
            <p class=`category-description`>" ++ Category.description category ++ html "</p>
            <ul>
                " ++ items_html ++ html "
            </ul>
        </div>
        ").

Fixpoint categories_loop (categories_html : str)
    (categories : list Category.t) : option str :=
  match categories with
  | [] => Some categories_html
  | category :: categories' =>
      entry ← category_entry category;
      categories_loop (categories_html ++ entry) categories'
  end.

Definition build_sources_html (sources : Sources.t) : option str :=
  categories_html ← categories_loop (html "") (Sources.categories sources);
  Some (html "
    <section id=`sources` class=`section section-sources`>
        <div class=`container`>
            <h2>Mycorrhizal Network</h2>
            <p class=`section-intro`>" ++ Sources.intro sources ++ html "</p>
            <div class=`sources-grid`>
                " ++ categories_html ++ html "
            </div>
        </div>
    </section>
    ").

(** *** [build_html], lines 246 to 273

    The template is read from a file; here it is an argument. *)

(** Lines 267 to 271. *)
Definition fill_template
    (template intro_html tools_html muscles_html sources_html stage_data_js
     : str) : str :=
  let html1 := replace template INTRO_SECTION intro_html in
  let html2 := replace html1 TOOLS_SECTION tools_html in
  let html3 := replace html2 MUSCLES_SECTION muscles_html in
  let html4 := replace html3 SOURCES_SECTION sources_html in
  replace html4 STAGE_DATA stage_data_js.

Definition build_html (template : str) (intro : Intro.t)
    (stages : list (Stage.t Hotspot)) (tools : list Tool.t)
    (muscles : Muscles.t) (sources : Sources.t) : option str :=
  let tools_lookup := tools_lookup_of tools in
  let stages_lookup := stages_lookup_of stages in
  let intro_html := build_intro_html intro in
  let tools_html := build_tools_html tools stages_lookup in
  let muscles_html := build_muscles_html muscles tools_lookup in
  sources_html ← build_sources_html sources;
  let stage_data_js := build_stage_overlay_data stages tools_lookup in
  Some (fill_template template intro_html tools_html muscles_html
          sources_html stage_data_js).

End Renderers.

(** * What the specification says

    The definitions of this part follow the wording of the specification;
    the theorems compare them with the functions of the script. *)

Definition line_feed : N := 10.
Definition space : N := 32.
Definition apostrophe : N := 39.
Definition left_paren : N := 40.
Definition right_paren : N := 41.
Definition hyphen : N := 45.
Definition slash : N := 47.

(** Removing a character, and replacing it by another one. *)
Definition drop_char (a : N) (s : str) : str := filter (λ c, c ≠ a) s.

Definition swap_char (a b : N) (s : str) : str :=
  (λ c, if decide (c = a) then b else c) <$> s.

(** The slug in the order the specification gives: parentheses, slash,
    apostrophes, spaces, and the lower-casing last. *)
Definition make_id_as_specified (ucd : UnicodeData) (name : str) : str :=
  lower ucd
    (swap_char space hyphen
       (drop_char apostrophe
          (swap_char slash hyphen
             (drop_char right_paren (drop_char left_paren name))))).

(** The same steps with the lower-casing first. *)
Definition make_id_lower_first (ucd : UnicodeData) (name : str) : str :=
  drop_char apostrophe
    (swap_char slash hyphen
       (drop_char right_paren
          (drop_char left_paren
             (swap_char space hyphen (lower ucd name))))).

(** The detail of a source item by priority: the first field that is present
    and not empty, after the dash; nothing when there is none. *)
Fixpoint first_present (fields : list (option str)) : str :=
  match fields with
  | [] => []
  | field :: fields' =>
      match truthy field with
      | Some v => item_detail v
      | None => first_present fields'
      end
  end.




(** An optional field that holds the empty string, read as absent. *)
Definition blank (field : option str) : option str :=
  match field with
  | Some [] => None
  | _ => field
  end.

Definition blank_item (item : Item.t) : Item.t := {|
  Item.title := Item.title item;
  Item.name := Item.name item;
  Item.author := blank (Item.author item);
  Item.role := blank (Item.role item);
  Item.description := blank (Item.description item);
  Item.link := blank (Item.link item)
|}.

Definition blank_tool (tool : Tool.t) : Tool.t := {|
  Tool.id := Tool.id tool;
  Tool.name := Tool.name tool;
  Tool.description := Tool.description tool;
  Tool.video := blank (Tool.video tool);
  Tool.stages := Tool.stages tool;
  Tool.muscles := Tool.muscles tool
|}.

Definition blank_intro (intro : Intro.t) : Intro.t := {|
  Intro.title := Intro.title intro;
  Intro.subtitle := Intro.subtitle intro;
  Intro.hook := Intro.hook intro;
  Intro.sections := Intro.sections intro;
  Intro.video := blank (Intro.video intro);
  Intro.attribution := Intro.attribution intro
|}.

Definition blank_category (category : Category.t) : Category.t := {|
  Category.name := Category.name category;
  Category.description := Category.description category;
  Category.items := blank_item <$> Category.items category
|}.

Definition blank_sources (sources : Sources.t) : Sources.t := {|
  Sources.intro := Sources.intro sources;
  Sources.categories := blank_category <$> Sources.categories sources
|}.

(** A template as the specification sees it: plain text with placeholder
    tokens in it. *)
Inductive placeholder :=
  | IntroSlot | ToolsSlot | MusclesSlot | SourcesSlot | StageDataSlot.

Global Instance placeholder_eq_dec : EqDecision placeholder.
Proof. solve_decision. Defined.

Inductive segment :=
  | Text (s : str)
  | Token (p : placeholder).

Definition token_of (p : placeholder) : str :=
  match p with
  | IntroSlot => INTRO_SECTION
  | ToolsSlot => TOOLS_SECTION
  | MusclesSlot => MUSCLES_SECTION
  | SourcesSlot => SOURCES_SECTION
  | StageDataSlot => STAGE_DATA
  end.

Definition template_of (segments : list segment) : str :=
  segments ≫= λ seg, match seg with Text s => s | Token p => token_of p end.

(** Every token of the template replaced by the output that belongs to it. *)
Definition filled (output : placeholder → str) (segments : list segment)
  : str :=
  segments ≫= λ seg, match seg with Text s => s | Token p => output p end.

Definition placeholders : list placeholder :=
  [IntroSlot; ToolsSlot; MusclesSlot; SourcesSlot; StageDataSlot].

(** The token that starts at the front of [s], if there is one. *)
Definition token_at (s : str) : option placeholder :=
  List.find (λ p, is_prefix (token_of p) s) placeholders.

(** A template cut at its tokens, from left to right; every character
    outside a token is a text of its own.  [skip] counts the characters of
    a token that are still to be passed over. *)
Fixpoint segments_from (skip : nat) (s : str) : list segment :=
  match s with
  | [] => []
  | c :: s' =>
      match skip with
      | S k => segments_from k s'
      | O =>
          match token_at s with
          | Some p => Token p :: segments_from (length (token_of p) - 1) s'
          | None => Text [c] :: segments_from 0 s'
          end
      end
  end.

Definition segments_of (template : str) : list segment :=
  segments_from 0 template.












(** * Definitions for the proofs *)

(** Two facts of the Unicode character database about lower-casing: a Basic
    Latin character maps to its ASCII lower case, and no character beyond
    Basic Latin maps to the punctuation that [make_id] rewrites. *)
Definition ascii_lower (c : N) : N := if in_range 65 90 c then c + 32 else c.

Definition slug_punctuation : list N :=
  [space; left_paren; right_paren; slash; apostrophe].

Record lower_keeps_punctuation (ucd : UnicodeData) : Prop := {
  lower_basic_latin : ∀ c, c < 128 → to_lower ucd c = [ascii_lower c];
  lower_elsewhere :
    ∀ c d, 128 ≤ c → d ∈ to_lower ucd c → d ∉ slug_punctuation
}.

(** What the five rewriting steps of [make_id] do to one character. *)
Definition slug_char (c : N) : str :=
  if decide (c = left_paren ∨ c = right_paren ∨ c = apostrophe) then []
  else if decide (c = space ∨ c = slash) then [hyphen]
  else [c].

(** The order in which [build_html] replaces the tokens, and the
    placeholders that are still to be replaced after [k] of the five
    steps. *)
Definition slot_index (p : placeholder) : nat :=
  match p with
  | IntroSlot => 0
  | ToolsSlot => 1
  | MusclesSlot => 2
  | SourcesSlot => 3
  | StageDataSlot => 4
  end.

Definition pending (k : nat) (p : placeholder) : bool :=
  (k <=? slot_index p)%nat.

(** One step of the assembly seen on the segments: the tokens of one
    placeholder become text. *)
Definition substitute (p : placeholder) (new : str) (seg : segment) : segment :=
  match seg with
  | Text s => Text s
  | Token q => if decide (p = q) then Text new else Token q
  end.

(** No token of [P] starts inside the text [t] when [rest] comes after it;
    in a settled list of segments this holds of every text. *)
Definition no_start (P : placeholder → bool) (t rest : str) : Prop :=
  ∀ u1 u2 q, t = u1 ++ u2 → u2 ≠ [] → P q = true →
    is_prefix (token_of q) (u2 ++ rest) = false.

Fixpoint settled (P : placeholder → bool) (segments : list segment) : Prop :=
  match segments with
  | [] => True
  | Text t :: segments' =>
      no_start P t (template_of segments') ∧ settled P segments'
  | Token _ :: segments' => settled P segments'
  end.

(** The four markup fragments start with a line feed and end with a space,
    and no token has either character. *)
Definition framed (fragment : str) : Prop :=
  head fragment = Some line_feed ∧ list.last fragment = Some space.

(** An item that [build_sources_html] can name: it has a title or a name. *)
Definition has_display_name (item : Item.t) : Prop :=
  is_Some (Item.title item) ∨ is_Some (Item.name item).

Definition all_named (sources : Sources.t) : Prop :=
  Forall (λ category, Forall has_display_name (Category.items category))
    (Sources.categories sources).

(** What [make_id] makes of one character that is not the capital sigma. *)
Definition slug_of_char (ucd : UnicodeData) (c : N) : str :=
  to_lower ucd c ≫= slug_char.

(** Facts of the Unicode character database that make lower-casing stable:
    what a lower-case mapping yields is mapped to itself and is not the
    capital sigma, and so are the two small sigmas and the hyphen. *)
Record lower_is_stable (ucd : UnicodeData) : Prop := {
  lower_fixed : ∀ c d, d ∈ to_lower ucd c → to_lower ucd d = [d];
  lower_not_sigma : ∀ c d, d ∈ to_lower ucd c → d ≠ capital_sigma;
  lower_small_sigma : to_lower ucd small_sigma = [small_sigma];
  lower_final_sigma : to_lower ucd small_final_sigma = [small_final_sigma];
  lower_hyphen : to_lower ucd hyphen = [hyphen]
}.



(** * Records for the examples *)



(** A build without stages, tools, muscles and sources.  [json.dumps] of the
    empty list is the text of two brackets. *)
Definition dumps_no_stage (records : list (StageOverlay.t unit)) : str :=
  html "[]".

Definition no_muscles : Muscles.t :=
  {| Muscles.intro := html "Capabilities"; Muscles.dimensions := [] |}.

Definition no_sources : Sources.t :=
  {| Sources.intro := html "Readings"; Sources.categories := [] |}.

Definition plain_intro : Intro.t := {|
  Intro.title := html "Hautu Waka";
  Intro.subtitle := html "A navigation framework";
  Intro.hook := html "Where are we?";
  Intro.sections := [];
  Intro.video := None;
  Intro.attribution :=
    {| Attribution.primary := html "Written by the crew";
       Attribution.organisations := html "Two organisations" |}
|}.

(** An intro whose title is the text of the tools token. *)
Definition intro_titled_as_token : Intro.t := {|
  Intro.title := TOOLS_SECTION;
  Intro.subtitle := html "A navigation framework";
  Intro.hook := html "Where are we?";
  Intro.sections := [];
  Intro.video := None;
  Intro.attribution :=
    {| Attribution.primary := html "Written by the crew";
       Attribution.organisations := html "Two organisations" |}
|}.

(** A template with the intro token twice and no tools token. *)
Definition intro_twice : list segment :=
  [Text (html "<body>"); Token IntroSlot; Text (html "<hr>"); Token IntroSlot;
   Text (html "<script>const stages = "); Token StageDataSlot;
   Text (html ";</script></body>")].

(** The name "A", capital sigma, "(B": the sigma ends a word only as long
    as the parenthesis is there. *)
Definition sigma_before_paren : str := [65; capital_sigma; 40; 66].

(** Two stages, and a tool that lists them with an unknown id between
    them. *)
Definition stage_named (id name_maori : str) : Stage.t unit := {|
  Stage.id := id;
  Stage.name_maori := name_maori;
  Stage.name_english := html "";
  Stage.as_stage := html "";
  Stage.as_state := html "";
  Stage.reflection_questions := [];
  Stage.tools := [];
  Stage.hotspot := tt
|}.

Definition two_stages : list (Stage.t unit) :=
  [stage_named (html "s1") (html "Takatu");
   stage_named (html "s2") (html "Rere")].

(** A tool with the id and the name of a gathering. *)
Definition hui_tool : Tool.t := {|
  Tool.id := html "hui";
  Tool.name := html "Hui";
  Tool.description := html "A gathering";
  Tool.video := None;
  Tool.stages := [];
  Tool.muscles := []
|}.



(** Lookups without a record. *)
Definition no_stage_lookup : gmap str (Stage.t unit) := ∅.

Definition no_tool_lookup : gmap str Tool.t := ∅.

(** * Properties *)

(** ** Loops that append to a string *)

Lemma foldl_append {A B} (f : A → list B) (l : list A) (acc : list B) :
  foldl (λ acc x, acc ++ f x) acc l = acc ++ (l ≫= f).
Proof.
  revert acc. induction l as [|x l IH]; intros acc; simpl.
  - by rewrite app_nil_r.
  - by rewrite IH, <- app_assoc.
Qed.

Lemma foldl_append_resolved {A B} (look : A → option B) (f : A → B → str)
    (l : list A) (acc : str) :
  foldl (λ acc x, match look x with Some y => acc ++ f x y | None => acc end)
    acc l
  = acc ++ mjoin (omap (λ x, f x <$> look x) l).
Proof.
  revert acc. induction l as [|x l IH]; intros acc; simpl.
  - by rewrite app_nil_r.
  - rewrite IH. destruct (look x) as [y|]; simpl; [|done].
    by rewrite <- app_assoc.
Qed.

Lemma option_loop_append {A} (f : A → option str)
    (loop : str → list A → option str) :
  (∀ acc, loop acc [] = Some acc) →
  (∀ acc x l, loop acc (x :: l) = f x ≫= λ e, loop (acc ++ e) l) →
  ∀ l acc, loop acc l = (λ es, acc ++ mjoin es) <$> mapM f l.
Proof.
  intros Hnil Hcons. induction l as [|x l IH]; intros acc.
  - rewrite Hnil. simpl. by rewrite app_nil_r.
  - rewrite Hcons. simpl. destruct (f x) as [e|]; simpl; [|done].
    rewrite IH. destruct (mapM f l) as [es|]; simpl; [|done].
    by rewrite <- app_assoc.
Qed.

(** A fragment as a frame around one of its parts. *)
Lemma frame_here {A} (x t : list A) : x ++ t = [] ++ x ++ t.
Proof. done. Qed.

Lemma frame_step {A} (a rest h x t : list A) :
  rest = h ++ x ++ t → a ++ rest = (a ++ h) ++ x ++ t.
Proof. intros ->. by rewrite <- app_assoc. Qed.

Ltac find_frame := repeat first [apply frame_here | apply frame_step].

Ltac project_fields :=
  cbn [Intro.title Intro.subtitle Intro.hook Intro.sections Intro.video
       Intro.attribution Muscles.intro Muscles.dimensions Dimension.id
       Dimension.name Dimension.name_english Dimension.description
       Dimension.muscles Muscle.id Muscle.name Muscle.description Muscle.tools
       Sources.intro Sources.categories Category.name Category.description
       Category.items Tool.id Tool.name Tool.description Tool.video
       Tool.stages Tool.muscles].

Section Properties.
Context (ucd : UnicodeData).
Context {Hotspot : Type}.
Context (json_dumps : list (StageOverlay.t Hotspot) → str).

Implicit Types (stages_lookup : gmap str (Stage.t Hotspot)).
Implicit Types (tools_lookup : gmap str Tool.t).

Lemma sections_html_of_bind sections :
  sections_html_of sections = sections ≫= intro_block.
Proof. exact (foldl_append intro_block sections []). Qed.

Lemma tools_html_of_bind stages_lookup tools :
  tools_html_of ucd stages_lookup tools
  = tools ≫= tool_entry ucd stages_lookup.
Proof. exact (foldl_append (tool_entry ucd stages_lookup) tools []). Qed.

Lemma muscles_html_of_bind tools_lookup muscles :
  muscles_html_of tools_lookup muscles
  = muscles ≫= muscle_entry tools_lookup.
Proof. exact (foldl_append (muscle_entry tools_lookup) muscles []). Qed.

Lemma dimensions_html_of_bind tools_lookup dimensions :
  dimensions_html_of tools_lookup dimensions
  = dimensions ≫= dimension_entry tools_lookup.
Proof.
  exact (foldl_append (dimension_entry tools_lookup) dimensions []).
Qed.

Lemma items_loop_mapM items :
  items_loop [] items = mjoin <$> mapM item_entry items.
Proof. by rewrite (option_loop_append item_entry items_loop). Qed.

Lemma categories_loop_mapM categories :
  categories_loop [] categories = mjoin <$> mapM category_entry categories.
Proof.
  by rewrite (option_loop_append category_entry categories_loop).
Qed.

Lemma stage_badges_of_resolved stages_lookup stages :
  stage_badges_of stages_lookup stages
  = mjoin (omap (λ stage_id, stage_badge <$> stages_lookup !! stage_id)
             stages).
Proof.
  exact (foldl_append_resolved (λ stage_id, stages_lookup !! stage_id)
           (λ _, stage_badge) stages []).
Qed.

Lemma muscle_links_of_bind muscles :
  muscle_links_of ucd muscles = muscles ≫= muscle_link ucd.
Proof. exact (foldl_append (muscle_link ucd) muscles []). Qed.

(** C8: every renderer puts its entries in the order of its input list:
    the sections of the intro, the tools, the dimensions and the muscles of
    a dimension, the categories and the items of a category.  Each fragment
    is a frame, which does not depend on the list, around the concatenation
    of the entries of the records, first record first. *)
Theorem renderers_keep_input_order :
  (∀ title subtitle hook video attribution, ∃ head tail, ∀ sections,
     build_intro_html
       {| Intro.title := title; Intro.subtitle := subtitle;
          Intro.hook := hook; Intro.sections := sections;
          Intro.video := video; Intro.attribution := attribution |}
     = head ++ (sections ≫= intro_block) ++ tail)
  ∧ (∀ stages_lookup, ∃ head tail, ∀ tools,
       build_tools_html ucd tools stages_lookup
       = head ++ (tools ≫= tool_entry ucd stages_lookup) ++ tail)
  ∧ (∀ intro tools_lookup, ∃ head tail, ∀ dimensions,
       build_muscles_html
         {| Muscles.intro := intro; Muscles.dimensions := dimensions |}
         tools_lookup
       = head ++ (dimensions ≫= dimension_entry tools_lookup) ++ tail)
  ∧ (∀ id name name_english description tools_lookup, ∃ head tail, ∀ muscles,
       dimension_entry tools_lookup
         {| Dimension.id := id; Dimension.name := name;
            Dimension.name_english := name_english;
            Dimension.description := description;
            Dimension.muscles := muscles |}
       = head ++ (muscles ≫= muscle_entry tools_lookup) ++ tail)
  ∧ (∀ intro, ∃ head tail, ∀ categories,
       build_sources_html
         {| Sources.intro := intro; Sources.categories := categories |}
       = (λ entries, head ++ mjoin entries ++ tail)
           <$> mapM category_entry categories)
  ∧ (∀ name description, ∃ head tail, ∀ items,
       category_entry
         {| Category.name := name; Category.description := description;
            Category.items := items |}
       = (λ entries, head ++ mjoin entries ++ tail)
           <$> mapM item_entry items).
Proof.
  split; [|split; [|split; [|split; [|split]]]].
  - intros. do 2 eexists. intros sections.
    unfold build_intro_html. project_fields.
    rewrite sections_html_of_bind. find_frame.
  - intros. do 2 eexists. intros tools.
    unfold build_tools_html. rewrite tools_html_of_bind. find_frame.
  - intros. do 2 eexists. intros dimensions.
    unfold build_muscles_html. project_fields.
    rewrite dimensions_html_of_bind. find_frame.
  - intros. do 2 eexists. intros muscles.
    unfold dimension_entry. project_fields.
    rewrite muscles_html_of_bind. find_frame.
  - intros. do 2 eexists. intros categories.
    unfold build_sources_html. project_fields.
    rewrite categories_loop_mapM.
    destruct (mapM category_entry categories) as [entries|]; [|done].
    cbn [fmap option_fmap option_map mbind option_bind]. f_equal. find_frame.
  - intros. do 2 eexists. intros items.
    unfold category_entry. project_fields.
    rewrite items_loop_mapM.
    destruct (mapM item_entry items) as [entries|]; [|done].
    cbn [fmap option_fmap option_map mbind option_bind]. f_equal. find_frame.
Qed.

(** ** Dangling references *)

Lemma build_html_succeeds template intro (stages : list (Stage.t Hotspot))
    tools muscles sources :
  is_Some (build_html ucd json_dumps template intro stages tools muscles
             sources)
  ↔ is_Some (build_sources_html sources).
Proof.
  unfold build_html.
  destruct (build_sources_html sources) as [sources_html|]; simpl.
  - split; eauto.
  - split; intros [? ?]; done.
Qed.

Lemma tool_entry_frame stages_lookup (id name description : str)
    (video : option str) (muscles : list str) :
  ∃ head tail, ∀ stages,
    tool_entry ucd stages_lookup
      {| Tool.id := id; Tool.name := name; Tool.description := description;
         Tool.video := video; Tool.stages := stages; Tool.muscles := muscles |}
    = head
      ++ mjoin (omap (λ stage_id, stage_badge <$> stages_lookup !! stage_id)
                  stages)
      ++ tail.
Proof.
  do 2 eexists. intros stages. unfold tool_entry. project_fields.
  rewrite stage_badges_of_resolved. find_frame.
Qed.

(** C7: a tool that lists a stage id the stage lookup does not have is
    rendered as if the id were not listed.  The entry of a tool is a frame,
    which does not depend on the listed stage ids, around the badges of the
    ids that resolve, in the tool's order, so the entry of such a tool has
    the badges of the other ids of its list, in that order.  Nothing about
    the tools or the stages makes the build fail: it fails only where the
    sources do. *)
Theorem dangling_stage_reference_is_left_out stages_lookup
    (id name description : str) (video : option str)
    (before after muscles : list str) (stage_id : str) :
  stages_lookup !! stage_id = None →
  tool_entry ucd stages_lookup
    {| Tool.id := id; Tool.name := name; Tool.description := description;
       Tool.video := video; Tool.stages := before ++ stage_id :: after;
       Tool.muscles := muscles |}
  = tool_entry ucd stages_lookup
      {| Tool.id := id; Tool.name := name; Tool.description := description;
         Tool.video := video; Tool.stages := before ++ after;
         Tool.muscles := muscles |}
  ∧ stage_badges_of stages_lookup (before ++ stage_id :: after)
    = mjoin (omap (λ stage_id, stage_badge <$> stages_lookup !! stage_id)
               (before ++ after))
  ∧ (∃ head tail,
       (∀ stages,
          tool_entry ucd stages_lookup
            {| Tool.id := id; Tool.name := name;
               Tool.description := description; Tool.video := video;
               Tool.stages := stages; Tool.muscles := muscles |}
          = head
            ++ mjoin (omap (λ stage_id,
                              stage_badge <$> stages_lookup !! stage_id)
                        stages)
            ++ tail)
       ∧ tool_entry ucd stages_lookup
           {| Tool.id := id; Tool.name := name;
              Tool.description := description; Tool.video := video;
              Tool.stages := before ++ stage_id :: after;
              Tool.muscles := muscles |}
         = head
           ++ mjoin (omap (λ stage_id,
                             stage_badge <$> stages_lookup !! stage_id)
                       (before ++ after))
           ++ tail)
  ∧ ∀ template intro (stages : list (Stage.t Hotspot)) tools muscles sources,
      is_Some (build_sources_html sources) →
      is_Some (build_html ucd json_dumps template intro stages tools
                 muscles sources).
Proof.
  intros Hnone.
  assert (stage_badges_of stages_lookup (before ++ stage_id :: after)
          = stage_badges_of stages_lookup (before ++ after)) as Heq.
  { rewrite !stage_badges_of_resolved, !omap_app. simpl.
    by rewrite Hnone. }
  split; [|split; [|split]].
  - unfold tool_entry. simpl. by rewrite Heq.
  - by rewrite Heq, stage_badges_of_resolved.
  - destruct (tool_entry_frame stages_lookup id name description video
                muscles) as (head & tail & Hframe).
    exists head, tail. split; [exact Hframe|].
    by rewrite Hframe, <- !stage_badges_of_resolved, Heq.
  - intros. by apply build_html_succeeds.
Qed.

(** ** The stage overlay *)

Lemma stage_overlay_records_fmap (stages : list (Stage.t Hotspot))
    tools_lookup :
  stage_overlay_records stages tools_lookup
  = overlay_of tools_lookup <$> stages.
Proof.
  unfold stage_overlay_records.
  rewrite (foldl_append (λ stage, [overlay_of tools_lookup stage])).
  rewrite app_nil_l. induction stages as [|stage stages IH]; [done|].
  by rewrite bind_cons, fmap_cons, IH.
Qed.

Lemma overlay_tools_ids tools_lookup (tools : list str) :
  ToolRef.id <$> overlay_tools tools_lookup tools
  = filter (λ t, is_Some (tools_lookup !! t)) tools.
Proof.
  unfold overlay_tools. induction tools as [|t tools IH]; simpl; [done|].
  rewrite filter_cons.
  destruct (tools_lookup !! t) as [tool|] eqn:Ht; simpl;
    [f_equal|]; exact IH.
Qed.

Lemma overlay_tools_names tools_lookup (tools : list str) :
  Forall (λ ref, Tool.name <$> tools_lookup !! ToolRef.id ref
                 = Some (ToolRef.name ref))
    (overlay_tools tools_lookup tools).
Proof.
  unfold overlay_tools. induction tools as [|t tools IH]; simpl.
  - constructor.
  - destruct (tools_lookup !! t) as [tool|] eqn:Ht; simpl; [|done].
    constructor; [|done]. simpl. by rewrite Ht.
Qed.

(** C5: the projector gives one record per stage, in the order of the
    stages.  The record has the stage's id, names, two descriptions,
    questions and hotspot as they are, and for its tools the pairs (id,
    name) of the listed ids that are in the tool lookup, in the listed
    order, the name being the one of the tool found there. *)
Theorem stage_overlay_is_one_record_per_stage
    (stages : list (Stage.t Hotspot)) tools_lookup :
  build_stage_overlay_data json_dumps stages tools_lookup
  = json_dumps (overlay_of tools_lookup <$> stages)
  ∧ ∀ stage : Stage.t Hotspot,
      let record := overlay_of tools_lookup stage in
      StageOverlay.id record = Stage.id stage
      ∧ StageOverlay.name_maori record = Stage.name_maori stage
      ∧ StageOverlay.name_english record = Stage.name_english stage
      ∧ StageOverlay.as_stage record = Stage.as_stage stage
      ∧ StageOverlay.as_state record = Stage.as_state stage
      ∧ StageOverlay.reflection_questions record
        = Stage.reflection_questions stage
      ∧ StageOverlay.hotspot record = Stage.hotspot stage
      ∧ ToolRef.id <$> StageOverlay.tools record
        = filter (λ t, is_Some (tools_lookup !! t)) (Stage.tools stage)
      ∧ Forall (λ ref, Tool.name <$> tools_lookup !! ToolRef.id ref
                       = Some (ToolRef.name ref))
          (StageOverlay.tools record).
Proof.
  split.
  - unfold build_stage_overlay_data.
    by rewrite stage_overlay_records_fmap.
  - intros stage. simpl. repeat split.
    + apply overlay_tools_ids.
    + apply overlay_tools_names.
Qed.

(** ** Duplicate ids in the lookups *)

Lemma lookup_of_last {A} (key : A → str) (records : list A) (id : str) :
  foldl (λ lookup r, <[key r := r]> lookup) (∅ : gmap str A) records !! id
  = list.last (filter (λ r, key r = id) records).
Proof.
  induction records as [|r records IH] using rev_ind; [done|].
  rewrite foldl_snoc, list.filter_app, filter_cons, filter_nil.
  destruct (decide (key r = id)) as [->|Hne].
  - by rewrite lookup_insert_eq, last_snoc.
  - by rewrite lookup_insert_ne, app_nil_r.
Qed.

(** C10: when several tools, or several stages, have the same id, the
    lookup holds the last of them in input order, so a stage badge, a tool
    link of a muscle and a tool name of the overlay that refer to the id
    show that record; the tools section still has one entry per tool
    record, in input order. *)
Theorem lookup_keeps_last_duplicate :
  (∀ tools id,
     tools_lookup_of tools !! id
     = list.last (filter (λ t, Tool.id t = id) tools))
  ∧ (∀ (stages : list (Stage.t Hotspot)) id,
       stages_lookup_of stages !! id
       = list.last (filter (λ s, Stage.id s = id) stages))
  ∧ (∀ (stages : list (Stage.t Hotspot)) id,
       stage_badges_of (stages_lookup_of stages) [id]
       = from_option stage_badge []
           (list.last (filter (λ s, Stage.id s = id) stages)))
  ∧ (∀ tools id,
       tool_links_of (tools_lookup_of tools) [id]
       = from_option (tool_link id) []
           (list.last (filter (λ t, Tool.id t = id) tools)))
  ∧ (∀ tools id,
       overlay_tools (tools_lookup_of tools) [id]
       = from_option
           (λ t, [{| ToolRef.id := id; ToolRef.name := Tool.name t |}]) []
           (list.last (filter (λ t, Tool.id t = id) tools)))
  ∧ (∀ stages_lookup tools,
       tools_html_of ucd stages_lookup tools
       = tools ≫= tool_entry ucd stages_lookup).
Proof.
  split; [|split; [|split; [|split; [|split]]]].
  - intros. apply (lookup_of_last Tool.id).
  - intros. apply (lookup_of_last Stage.id).
  - intros stages id. rewrite <- (lookup_of_last Stage.id).
    unfold stage_badges_of. simpl. unfold stages_lookup_of.
    by destruct (foldl _ _ _ !! id).
  - intros tools id. rewrite <- (lookup_of_last Tool.id).
    unfold tool_links_of. simpl. unfold tools_lookup_of.
    by destruct (foldl _ _ _ !! id).
  - intros tools id. rewrite <- (lookup_of_last Tool.id).
    unfold overlay_tools. simpl. unfold tools_lookup_of.
    by destruct (foldl _ _ _ !! id).
  - intros. apply tools_html_of_bind.
Qed.

(** ** The placeholder of a muscle without tools *)

Lemma tool_links_start tools_lookup (tools : list str) :
  let links := mjoin (omap (λ id, tool_link id <$> tools_lookup !! id) tools) in
  links = [] ∨ ∃ rest, links = 60 :: 97 :: rest.
Proof.
  induction tools as [|id tools IH]; simpl; [by left|].
  destruct (tools_lookup !! id) as [tool|]; simpl; [|exact IH].
  right. eexists. reflexivity.
Qed.

Lemma tool_links_of_nonempty tools_lookup (tools : list str) :
  tools ≠ [] →
  tool_links_of tools_lookup tools
  = mjoin (omap (λ id, tool_link id <$> tools_lookup !! id) tools).
Proof.
  destruct tools as [|id tools]; [done|]. intros _.
  exact (foldl_append_resolved (λ id, tools_lookup !! id) tool_link
           (id :: tools) []).
Qed.

(** C2: the entry of a muscle is a frame around the text that follows
    "Developed by:", and that text is the placeholder "no tools mapped"
    exactly when the muscle lists no tool id.  A muscle that lists ids gets
    the links of those that resolve, and so an empty text, not the
    placeholder, when none of them resolves. *)
Theorem no_tools_placeholder_iff_no_ids tools_lookup (tools : list str) :
  (∀ id name description, ∃ head tail, ∀ tools,
     muscle_entry tools_lookup
       {| Muscle.id := id; Muscle.name := name;
          Muscle.description := description; Muscle.tools := tools |}
     = head ++ tool_links_of tools_lookup tools ++ tail)
  ∧ (tool_links_of tools_lookup tools = no_tools ↔ tools = [])
  ∧ (tools ≠ [] →
     tool_links_of tools_lookup tools
     = mjoin (omap (λ id, tool_link id <$> tools_lookup !! id) tools))
  ∧ (tools ≠ [] → Forall (λ id, tools_lookup !! id = None) tools →
     tool_links_of tools_lookup tools = []).
Proof.
  split.
  { intros. do 2 eexists. intros tools'. unfold muscle_entry.
    project_fields. find_frame. }
  split; [|split].
  - split; [|by intros ->].
    destruct tools as [|id tools]; [done|]. intros Heq. exfalso.
    rewrite tool_links_of_nonempty in Heq by done.
    destruct (tool_links_start tools_lookup (id :: tools)) as [Hnil|[rest Hr]].
    + rewrite Hnil in Heq. discriminate Heq.
    + rewrite Hr in Heq. discriminate Heq.
  - apply tool_links_of_nonempty.
  - intros Hne Hall. rewrite tool_links_of_nonempty by done.
    clear Hne. induction Hall as [|id tools Hid _ IH]; [done|].
    simpl. rewrite Hid. exact IH.
Qed.

(** ** Optional fields that hold the empty string *)

Lemma truthy_blank field : truthy (blank field) = truthy field.
Proof. by destruct field as [[|c v]|]. Qed.

Lemma item_name_detail_blank item :
  item_name_detail (blank_item item) = item_name_detail item.
Proof.
  unfold item_name_detail. simpl. by rewrite !truthy_blank.
Qed.

Lemma item_entry_blank item : item_entry (blank_item item) = item_entry item.
Proof.
  unfold item_entry. rewrite item_name_detail_blank. simpl.
  by rewrite truthy_blank.
Qed.

Lemma mapM_fmap_ext {A B} (f : B → option str) (g : A → B) (h : A → option str)
    (l : list A) :
  (∀ x, f (g x) = h x) → mapM f (g <$> l) = mapM h l.
Proof.
  intros Hext. induction l as [|x l IH]; simpl; [done|].
  change (list_fmap A B g l) with (g <$> l). by rewrite Hext, IH.
Qed.

Lemma category_entry_blank category :
  category_entry (blank_category category) = category_entry category.
Proof.
  unfold category_entry. simpl. rewrite !items_loop_mapM.
  by rewrite (mapM_fmap_ext item_entry blank_item item_entry)
    by apply item_entry_blank.
Qed.

Lemma tool_entry_blank stages_lookup tool :
  tool_entry ucd stages_lookup (blank_tool tool)
  = tool_entry ucd stages_lookup tool.
Proof.
  unfold tool_entry, tool_video_html. simpl. by rewrite truthy_blank.
Qed.

(** C9: an optional field that is there with the empty string as its value
    is rendered like a field that is not there: the video of the intro and
    of a tool, and the link, author, role and description of a source
    item. *)
Theorem empty_string_field_renders_as_absent :
  blank (Some []) = None
  ∧ (∀ intro, build_intro_html (blank_intro intro) = build_intro_html intro)
  ∧ (∀ stages_lookup tools,
       build_tools_html ucd (blank_tool <$> tools) stages_lookup
       = build_tools_html ucd tools stages_lookup)
  ∧ (∀ item, item_entry (blank_item item) = item_entry item)
  ∧ (∀ sources,
       build_sources_html (blank_sources sources)
       = build_sources_html sources)
  ∧ intro_video_html (Some []) = []
  ∧ tool_video_html (Some []) = [].
Proof.
  split; [done|]. split; [|split; [|split; [|split; [|done]]]].
  - intros intro. unfold build_intro_html, intro_video_html. simpl.
    by rewrite truthy_blank.
  - intros stages_lookup tools. unfold build_tools_html.
    rewrite !tools_html_of_bind, list_fmap_bind.
    by rewrite (list_bind_ext _ (tool_entry ucd stages_lookup) _ tools)
      by (intros; simpl; auto using tool_entry_blank).
  - apply item_entry_blank.
  - intros sources. unfold build_sources_html. simpl.
    rewrite !categories_loop_mapM.
    by rewrite (mapM_fmap_ext category_entry blank_category category_entry)
      by apply category_entry_blank.
Qed.

(** ** The detail of a source item *)

End Properties.

(** ** [str.replace] *)

Lemma replace_swap_char (s : str) (a b : N) :
  replace s [a] [b] = swap_char a b s.
Proof.
  unfold replace, swap_char. induction s as [|c s IH]; [done|].
  simpl. rewrite IH. destruct (N.eqb_spec a c) as [->|Hne]; simpl.
  - by rewrite decide_True.
  - by rewrite decide_False by congruence.
Qed.

Lemma replace_drop_char (s : str) (a : N) :
  replace s [a] [] = drop_char a s.
Proof.
  unfold replace, drop_char. induction s as [|c s IH]; [done|].
  simpl. rewrite IH, filter_cons. destruct (N.eqb_spec a c) as [->|Hne]; simpl.
  - by rewrite decide_False by (intros H; by apply H).
  - by rewrite decide_True by congruence.
Qed.

Lemma is_prefix_app (p rest : str) : is_prefix p (p ++ rest) = true.
Proof.
  induction p as [|c p IH]; simpl; [done|]. by rewrite N.eqb_refl, IH.
Qed.

Lemma replace_from_skip (old new p rest : str) :
  replace_from old new (length p) (p ++ rest) = replace_from old new 0 rest.
Proof. induction p as [|c p IH]; simpl; [by destruct rest|done]. Qed.

Lemma replace_from_match (old new rest : str) :
  old ≠ [] →
  replace_from old new 0 (old ++ rest) = new ++ replace_from old new 0 rest.
Proof.
  destruct old as [|c old]; [done|]. intros _.
  change ((c :: old) ++ rest) with (c :: (old ++ rest)).
  cbn [replace_from].
  change (c :: (old ++ rest)) with ((c :: old) ++ rest).
  rewrite is_prefix_app.
  replace (length (c :: old) - 1)%nat with (length old) by (simpl; lia).
  by rewrite replace_from_skip.
Qed.

Lemma replace_nonempty (s old new : str) :
  old ≠ [] → replace s old new = replace_from old new 0 s.
Proof. by destruct old. Qed.

Lemma is_prefix_split (p s : str) :
  is_prefix p s = true → ∃ rest, s = p ++ rest.
Proof.
  revert s. induction p as [|a p IH]; intros s Hp; [by exists s|].
  destruct s as [|b s]; [done|]. simpl in Hp.
  apply andb_prop in Hp as [Hab Hp]. apply N.eqb_eq in Hab as ->.
  destruct (IH s Hp) as [rest ->]. by exists rest.
Qed.

Lemma is_prefix_extend (p a b : str) :
  is_prefix p a = true → is_prefix p (a ++ b) = true.
Proof.
  intros Hp. destruct (is_prefix_split p a Hp) as [rest ->].
  rewrite <- app_assoc. apply is_prefix_app.
Qed.

Lemma is_prefix_stops (p a b : str) (c : N) :
  c ∉ p → is_prefix p (a ++ c :: b) = true → is_prefix p a = true.
Proof.
  revert a. induction p as [|x p IH]; intros a Hc Hp; [done|].
  apply not_elem_of_cons in Hc as [Hcx Hc].
  destruct a as [|y a]; simpl in Hp.
  - apply andb_prop in Hp as [Hxc _]. apply N.eqb_eq in Hxc. congruence.
  - apply andb_prop in Hp as [Hxy Hp]. simpl. rewrite Hxy. simpl.
    by apply IH.
Qed.

Lemma occurs_at_front (p s : str) : is_prefix p s = true → occurs p s = true.
Proof. destruct s; simpl; [done|]. by intros ->. Qed.

Lemma occurs_after (p a s : str) : occurs p s = true → occurs p (a ++ s) = true.
Proof.
  intros Hs. induction a as [|c a IH]; [done|]. simpl. rewrite IH.
  apply orb_true_r.
Qed.

Lemma occurs_inside (p a b c : str) :
  is_prefix p b = true → occurs p (a ++ b ++ c) = true.
Proof.
  intros Hp. apply occurs_after, occurs_at_front. by apply is_prefix_extend.
Qed.

(** ** The assembly of the page *)

Lemma token_nonempty (p : placeholder) : token_of p ≠ [].
Proof. by destruct p. Qed.

Lemma token_has_no_line_feed (p : placeholder) : line_feed ∉ token_of p.
Proof. destruct p; apply (bool_decide_unpack _); by vm_compute. Qed.

Lemma token_has_no_space (p : placeholder) : space ∉ token_of p.
Proof. destruct p; apply (bool_decide_unpack _); by vm_compute. Qed.

Lemma all_placeholders (p : placeholder) : In p placeholders.
Proof. destruct p; simpl; tauto. Qed.

Lemma token_at_Some (s : str) (p : placeholder) :
  token_at s = Some p → is_prefix (token_of p) s = true.
Proof. intros Hfind. by apply List.find_some in Hfind as [_ Hp]. Qed.

Lemma token_at_None (s : str) (p : placeholder) :
  token_at s = None → is_prefix (token_of p) s = false.
Proof.
  intros Hfind.
  apply (List.find_none _ _ Hfind p (all_placeholders p)).
Qed.

Lemma replace_from_other_token (p q : placeholder) (new rest : str) :
  p ≠ q →
  replace_from (token_of p) new 0 (token_of q ++ rest)
  = token_of q ++ replace_from (token_of p) new 0 rest.
Proof. destruct p, q; intros Hne; try done; reflexivity. Qed.

(** The segments of a template spell the template, and no token starts
    inside one of their texts. *)
Lemma template_of_segments_from (s : str) (skip : nat) :
  template_of (segments_from skip s) = drop skip s.
Proof.
  revert skip. induction s as [|c s IH]; intros skip; [by destruct skip|].
  destruct skip as [|k]; [|apply IH]. cbn [segments_from drop].
  destruct (token_at (c :: s)) as [p|] eqn:Hat.
  - apply token_at_Some, is_prefix_split in Hat as [rest Hrest].
    unfold template_of. rewrite bind_cons. fold (template_of
      (segments_from (length (token_of p) - 1) s)).
    rewrite IH, Hrest.
    pose proof (token_nonempty p) as Hne.
    destruct (token_of p) as [|c' tp]; [done|].
    injection Hrest as -> ->.
    replace (length (c' :: tp) - 1)%nat with (length tp) by (simpl; lia).
    by rewrite drop_app_length.
  - unfold template_of. rewrite bind_cons.
    fold (template_of (segments_from 0 s)). by rewrite IH.
Qed.

Lemma template_of_segments (template : str) :
  template_of (segments_of template) = template.
Proof. apply (template_of_segments_from template 0). Qed.

Lemma settled_segments_from (P : placeholder → bool) (s : str) (skip : nat) :
  settled P (segments_from skip s).
Proof.
  revert skip. induction s as [|c s IH]; intros skip; [by destruct skip|].
  destruct skip as [|k]; [|apply IH]. cbn [segments_from].
  destruct (token_at (c :: s)) as [p|] eqn:Hat; [apply IH|].
  split; [|apply IH]. intros u1 u2 q Hsplit Hu2 _.
  rewrite template_of_segments_from.
  destruct u1 as [|x u1].
  - simpl in Hsplit. subst u2. by apply token_at_None.
  - destruct u1; destruct u2; done.
Qed.

Lemma replace_over_text (p : placeholder) (P : placeholder → bool)
    (new t rest : str) :
  P p = true → no_start P t rest →
  replace_from (token_of p) new 0 (t ++ rest)
  = t ++ replace_from (token_of p) new 0 rest.
Proof.
  intros Hp. induction t as [|c t IH]; intros Hfree; [done|].
  change ((c :: t) ++ rest) with (c :: (t ++ rest)). cbn [replace_from].
  change (c :: (t ++ rest)) with ((c :: t) ++ rest).
  rewrite (Hfree [] (c :: t) p) by done.
  rewrite IH; [done|].
  intros u1 u2 q Hsplit Hu2 Hq. apply (Hfree (c :: u1) u2 q); [|done..].
  by rewrite Hsplit.
Qed.

Lemma replace_template (P : placeholder → bool) (segments : list segment)
    (p : placeholder) (new : str) :
  P p = true → settled P segments →
  replace (template_of segments) (token_of p) new
  = template_of (substitute p new <$> segments).
Proof.
  intros Hp. rewrite replace_nonempty by apply token_nonempty.
  unfold template_of.
  induction segments as [|seg segments IH]; intros Hsettled; [done|].
  rewrite fmap_cons, !bind_cons. destruct seg as [t|q]; simpl in Hsettled.
  - destruct Hsettled as [Hfree Hsettled]. rewrite <- IH by done.
    by apply (replace_over_text p P).
  - rewrite <- IH by done. simpl. destruct (decide (p = q)) as [<-|Hne].
    + apply replace_from_match, token_nonempty.
    + by apply replace_from_other_token.
Qed.

Lemma is_prefix_through_substitute (T : str) (p : placeholder) (c : N)
    (new : str) (segments : list segment) :
  c ∉ T →
  ∀ a, is_prefix T (a ++ template_of (substitute p (c :: new) <$> segments))
       = true →
       is_prefix T (a ++ template_of segments) = true.
Proof.
  intros Hc. unfold template_of.
  induction segments as [|seg segments IH]; intros a Hp; [done|].
  rewrite fmap_cons, bind_cons in Hp. rewrite bind_cons.
  destruct seg as [t|q]; simpl in Hp.
  - rewrite app_assoc in *. by apply IH.
  - destruct (decide (p = q)) as [<-|Hne].
    + apply is_prefix_extend. by apply (is_prefix_stops _ _ _ c) in Hp.
    + rewrite app_assoc in *. by apply IH.
Qed.

Lemma settled_substitute (P P' : placeholder → bool) (p : placeholder)
    (new : str) (segments : list segment) :
  (∀ q, P' q = true → P q = true) →
  framed new → (∀ q, P' q = true → occurs (token_of q) new = false) →
  settled P segments → settled P' (substitute p new <$> segments).
Proof.
  intros Hsub [Hhead Hlast] Hnew.
  destruct new as [|c new']; [done|]. injection Hhead as ->.
  induction segments as [|seg segments IH]; intros Hsettled; [done|].
  rewrite fmap_cons. destruct seg as [t|q]; simpl in Hsettled.
  - destruct Hsettled as [Hfree Hsettled]. split; [|by apply IH].
    intros u1 u2 q Hsplit Hu2 Hq.
    destruct (is_prefix _ _) eqn:Hprefix; [|done].
    apply is_prefix_through_substitute in Hprefix;
      [|apply token_has_no_line_feed].
    by rewrite (Hfree u1 u2 q) in Hprefix by auto.
  - simpl. destruct (decide (p = q)) as [<-|Hne]; [|by apply IH].
    split; [|by apply IH]. intros u1 u2 q Hsplit Hu2 Hq.
    destruct (is_prefix _ _) eqn:Hprefix; [|done].
    assert (∃ u2', u2 = u2' ++ [space]) as [u2' ->].
    { rewrite Hsplit, last_app in Hlast.
      destruct (list.last u2) as [d|] eqn:Hd.
      - injection Hlast as ->. by apply last_Some in Hd.
      - by apply last_None in Hd. }
    rewrite <- app_assoc in Hprefix.
    apply is_prefix_stops in Hprefix; [|apply token_has_no_space].
    rewrite <- (Hnew q Hq), Hsplit. symmetry. by apply occurs_inside.
Qed.

Lemma pending_weaken (k : nat) (q : placeholder) :
  pending (S k) q = true → pending k q = true.
Proof.
  unfold pending. intros H. apply Nat.leb_le in H. apply Nat.leb_le. lia.
Qed.

Lemma all_substituted (output : placeholder → str) (segments : list segment) :
  template_of
    (substitute StageDataSlot (output StageDataSlot) <$>
       (substitute SourcesSlot (output SourcesSlot) <$>
          (substitute MusclesSlot (output MusclesSlot) <$>
             (substitute ToolsSlot (output ToolsSlot) <$>
                (substitute IntroSlot (output IntroSlot) <$> segments)))))
  = filled output segments.
Proof.
  unfold template_of, filled. rewrite !list_fmap_bind.
  apply list_bind_ext; [|done]. by intros [s|[]].
Qed.

(** The five replacements of [build_html] on any template: when the four
    markup fragments are framed and none of them has a token that is
    replaced after it, the result is the template with all its tokens
    replaced at once. *)
Lemma fill_template_all_at_once (template : str) (output : placeholder → str) :
  (∀ p, (slot_index p < 4)%nat → framed (output p)) →
  (∀ p q, (slot_index p < slot_index q)%nat →
     occurs (token_of q) (output p) = false) →
  fill_template template (output IntroSlot) (output ToolsSlot)
    (output MusclesSlot) (output SourcesSlot) (output StageDataSlot)
  = filled output (segments_of template).
Proof.
  intros Hframed Hlater.
  assert (∀ k p, slot_index p = k → (k < 4)%nat →
          ∀ segments, settled (pending k) segments →
          settled (pending (S k)) (substitute p (output p) <$> segments))
    as Hstep.
  { intros k p Hk Hlt segments. apply settled_substitute.
    - apply pending_weaken.
    - apply Hframed. lia.
    - intros q Hq. apply Hlater. apply Nat.leb_le in Hq. lia. }
  pose proof (settled_segments_from (pending 0) template 0) as H0.
  fold (segments_of template) in H0.
  pose proof (Hstep 0%nat IntroSlot eq_refl ltac:(lia) _ H0) as H1.
  pose proof (Hstep 1%nat ToolsSlot eq_refl ltac:(lia) _ H1) as H2.
  pose proof (Hstep 2%nat MusclesSlot eq_refl ltac:(lia) _ H2) as H3.
  pose proof (Hstep 3%nat SourcesSlot eq_refl ltac:(lia) _ H3) as H4.
  unfold fill_template.
  rewrite <- (template_of_segments template) at 1.
  change INTRO_SECTION with (token_of IntroSlot).
  change TOOLS_SECTION with (token_of ToolsSlot).
  change MUSCLES_SECTION with (token_of MusclesSlot).
  change SOURCES_SECTION with (token_of SourcesSlot).
  change STAGE_DATA with (token_of StageDataSlot).
  rewrite (replace_template (pending 0)) by done.
  rewrite (replace_template (pending 1)) by done.
  rewrite (replace_template (pending 2)) by done.
  rewrite (replace_template (pending 3)) by done.
  rewrite (replace_template (pending 4)) by done.
  apply all_substituted.
Qed.

Lemma token_in_segments (p : placeholder) (s : str) (skip : nat) :
  Token p ∈ segments_from skip s → occurs (token_of p) s = true.
Proof.
  revert skip. induction s as [|c s IH]; intros skip Hin.
  - destruct skip; by apply elem_of_nil in Hin.
  - cbn [occurs]. destruct skip as [|k].
    + cbn [segments_from] in Hin.
      destruct (token_at (c :: s)) as [q|] eqn:Hat;
        apply elem_of_cons in Hin as [Heq|Hin].
      * injection Heq as ->. by rewrite (token_at_Some _ _ Hat).
      * rewrite (IH _ Hin). apply orb_true_r.
      * done.
      * rewrite (IH _ Hin). apply orb_true_r.
    + rewrite (IH _ Hin). apply orb_true_r.
Qed.

Lemma filled_ignores_missing (segments : list segment) (p : placeholder)
    (output output' : placeholder → str) :
  Token p ∉ segments → (∀ q, q ≠ p → output q = output' q) →
  filled output segments = filled output' segments.
Proof.
  intros Hmissing Hsame. unfold filled.
  induction segments as [|seg segments IH]; [done|].
  rewrite !bind_cons, IH by (intros Hin; apply Hmissing; by right).
  f_equal. destruct seg as [s|q]; [done|]. apply Hsame.
  intros ->. apply Hmissing. by left.
Qed.

Lemma last_of_app {A} (l1 l2 : list A) (x : A) :
  list.last l2 = Some x → list.last (l1 ++ l2) = Some x.
Proof. intros Hlast. by rewrite last_app, Hlast. Qed.

Ltac framed_fragment :=
  split; [reflexivity | repeat apply last_of_app; reflexivity].

Lemma build_intro_html_framed (intro : Intro.t) :
  framed (build_intro_html intro).
Proof. unfold build_intro_html. framed_fragment. Qed.

Lemma build_tools_html_framed (ucd : UnicodeData) {Hotspot : Type}
    (tools : list Tool.t) (stages_lookup : gmap str (Stage.t Hotspot)) :
  framed (build_tools_html ucd tools stages_lookup).
Proof. unfold build_tools_html. framed_fragment. Qed.

Lemma build_muscles_html_framed (muscles : Muscles.t)
    (tools_lookup : gmap str Tool.t) :
  framed (build_muscles_html muscles tools_lookup).
Proof. unfold build_muscles_html. framed_fragment. Qed.

Lemma build_sources_html_framed (sources : Sources.t) (sources_html : str) :
  build_sources_html sources = Some sources_html → framed sources_html.
Proof.
  unfold build_sources_html.
  destruct (categories_loop _ _) as [categories_html|]; [|done].
  cbn [mbind option_bind]. intros Heq. apply (inj Some) in Heq.
  subst sources_html. framed_fragment.
Qed.

(** C6, as the script has it: the five tokens are replaced one after the
    other, each everywhere in the page built so far.  A template is its
    tokens and the text between them, in which no token starts.  When none
    of the markup fragments has in it a token that is replaced after it, the
    page is the template with every token, wherever and however often it
    occurs, replaced by the output that belongs to it; the build succeeds
    whichever tokens the template has, and the output of a token that does
    not occur in the template has no part in the page. *)
Theorem build_html_fills_every_token (ucd : UnicodeData) {Hotspot : Type}
    (json_dumps : list (StageOverlay.t Hotspot) → str)
    (template : str) (intro : Intro.t)
    (stages : list (Stage.t Hotspot)) (tools : list Tool.t)
    (muscles : Muscles.t) (sources : Sources.t) (sources_html : str) :
  let output p :=
    match p with
    | IntroSlot => build_intro_html intro
    | ToolsSlot => build_tools_html ucd tools (stages_lookup_of stages)
    | MusclesSlot => build_muscles_html muscles (tools_lookup_of tools)
    | SourcesSlot => sources_html
    | StageDataSlot =>
        build_stage_overlay_data json_dumps stages (tools_lookup_of tools)
    end in
  build_sources_html sources = Some sources_html →
  (∀ p q, (slot_index p < slot_index q)%nat →
     occurs (token_of q) (output p) = false) →
  template_of (segments_of template) = template
  ∧ settled (λ _, true) (segments_of template)
  ∧ build_html ucd json_dumps template intro stages tools muscles sources
    = Some (filled output (segments_of template))
  ∧ ∀ p output',
      occurs (token_of p) template = false →
      (∀ q, q ≠ p → output q = output' q) →
      filled output (segments_of template)
      = filled output' (segments_of template).
Proof.
  intros output Hsources Hlater. split; [apply template_of_segments|].
  split; [apply settled_segments_from|]. split.
  - unfold build_html. rewrite Hsources. simpl. f_equal.
    apply (fill_template_all_at_once template output); [|done].
    intros [] Hp; simpl in Hp; try lia.
    + apply build_intro_html_framed.
    + apply build_tools_html_framed.
    + apply build_muscles_html_framed.
    + by apply (build_sources_html_framed sources).
  - intros p output' Hmissing. apply filled_ignores_missing.
    intros Hin. apply token_in_segments in Hin. congruence.
Qed.

(** ** The slug function *)

Lemma drop_char_eq (a : N) (s : str) : drop_char a (a :: s) = drop_char a s.
Proof.
  unfold drop_char. rewrite filter_cons.
  by rewrite decide_False by (intros H; by apply H).
Qed.

Lemma drop_char_ne (a c : N) (s : str) :
  c ≠ a → drop_char a (c :: s) = c :: drop_char a s.
Proof. intros Hne. unfold drop_char. by rewrite filter_cons, decide_True. Qed.

Lemma swap_char_eq (a b : N) (s : str) :
  swap_char a b (a :: s) = b :: swap_char a b s.
Proof. unfold swap_char. by rewrite fmap_cons, decide_True. Qed.

Lemma swap_char_ne (a b c : N) (s : str) :
  c ≠ a → swap_char a b (c :: s) = c :: swap_char a b s.
Proof. intros Hne. unfold swap_char. by rewrite fmap_cons, decide_False. Qed.

Lemma slug_char_punctuation_free (c : N) :
  c ∉ slug_punctuation → slug_char c = [c].
Proof.
  unfold slug_punctuation, slug_char. intros Hnot.
  rewrite !not_elem_of_cons in Hnot. destruct Hnot as (?&?&?&?&?&_).
  rewrite decide_False by (intros [?|[?|?]]; done).
  by rewrite decide_False by (intros [?|?]; done).
Qed.

Ltac split_on_punctuation c :=
  destruct (decide (c = space)) as [->|?];
  [|destruct (decide (c = left_paren)) as [->|?];
    [|destruct (decide (c = right_paren)) as [->|?];
      [|destruct (decide (c = slash)) as [->|?];
        [|destruct (decide (c = apostrophe)) as [->|?]]]]].

Lemma lower_first_steps (s : str) :
  drop_char apostrophe
    (swap_char slash hyphen
       (drop_char right_paren
          (drop_char left_paren (swap_char space hyphen s))))
  = s ≫= slug_char.
Proof.
  induction s as [|c s IH]; [done|]. rewrite bind_cons, <- IH.
  split_on_punctuation c.
  - rewrite swap_char_eq. by rewrite !drop_char_ne, swap_char_ne, drop_char_ne.
  - rewrite swap_char_ne, drop_char_eq by done. done.
  - rewrite swap_char_ne, drop_char_ne, drop_char_eq by done. done.
  - rewrite swap_char_ne, !drop_char_ne, swap_char_eq, drop_char_ne by done.
    done.
  - rewrite swap_char_ne, !drop_char_ne, swap_char_ne, drop_char_eq by done.
    done.
  - rewrite swap_char_ne, !drop_char_ne, swap_char_ne, drop_char_ne by done.
    rewrite slug_char_punctuation_free; [done|].
    unfold slug_punctuation. rewrite !not_elem_of_cons.
    by repeat split; try apply not_elem_of_nil.
Qed.

Lemma specified_steps (s : str) :
  swap_char space hyphen
    (drop_char apostrophe
       (swap_char slash hyphen
          (drop_char right_paren (drop_char left_paren s))))
  = s ≫= slug_char.
Proof.
  induction s as [|c s IH]; [done|]. rewrite bind_cons, <- IH.
  split_on_punctuation c.
  - rewrite !drop_char_ne, swap_char_ne, drop_char_ne, swap_char_eq by done.
    done.
  - by rewrite drop_char_eq.
  - rewrite drop_char_ne, drop_char_eq by done. done.
  - rewrite !drop_char_ne, swap_char_eq, drop_char_ne, swap_char_ne by done.
    done.
  - rewrite !drop_char_ne, swap_char_ne, drop_char_eq by done. done.
  - rewrite !drop_char_ne, swap_char_ne, drop_char_ne, swap_char_ne by done.
    rewrite slug_char_punctuation_free; [done|].
    unfold slug_punctuation. rewrite !not_elem_of_cons.
    by repeat split; try apply not_elem_of_nil.
Qed.

Lemma bind_singleton {A B} (f : A → list B) (x : A) : [x] ≫= f = f x.
Proof. rewrite bind_cons. apply app_nil_r. Qed.

Section CaseProperties.
Context (ucd : UnicodeData).

Lemma lower_at_plain (before : str) (c : N) (after : str) :
  c ≠ capital_sigma → lower_at ucd before c after = to_lower ucd c.
Proof.
  intros Hne. unfold lower_at.
  by destruct (N.eqb_spec c capital_sigma).
Qed.

Lemma lower_from_plain (s : str) :
  Forall (λ c, c ≠ capital_sigma) s →
  ∀ before, lower_from ucd before s = s ≫= to_lower ucd.
Proof.
  induction 1 as [|c s Hc _ IH]; intros before; [done|].
  cbn [lower_from]. by rewrite lower_at_plain, IH, bind_cons.
Qed.

Lemma make_id_steps (name : str) :
  make_id ucd name = make_id_lower_first ucd name.
Proof.
  unfold make_id, make_id_lower_first.
  change (html " ") with [space]. change (html "-") with [hyphen].
  change (html "(") with [left_paren]. change (html ")") with [right_paren].
  change (html "/") with [slash]. change (html "'") with [apostrophe].
  change (html "") with (@nil N).
  by rewrite !replace_swap_char, !replace_drop_char.
Qed.

Lemma slug_char_no_sigma (s : str) :
  Forall (λ c, c ≠ capital_sigma) s →
  Forall (λ c, c ≠ capital_sigma) (s ≫= slug_char).
Proof.
  induction 1 as [|c s Hc _ IH]; [done|]. rewrite bind_cons.
  apply Forall_app. split; [|done]. unfold slug_char.
  repeat case_decide; repeat constructor; done.
Qed.

Lemma bind_punctuation_free (l : str) :
  Forall (λ d, d ∉ slug_punctuation) l → l ≫= slug_char = l.
Proof.
  induction 1 as [|d l Hd _ IH]; [done|].
  by rewrite bind_cons, IH, slug_char_punctuation_free.
Qed.

Lemma ascii_lower_punctuation_free (c : N) :
  c ∉ slug_punctuation → ascii_lower c ∉ slug_punctuation.
Proof.
  unfold slug_punctuation, ascii_lower, in_range.
  unfold space, left_paren, right_paren, slash, apostrophe.
  rewrite !not_elem_of_cons. intros (?&?&?&?&?&_).
  destruct (N.leb_spec 65 c), (N.leb_spec c 90); simpl;
    repeat split; try apply not_elem_of_nil; lia.
Qed.

Section WithFacts.
Context (facts : lower_keeps_punctuation ucd).

Lemma lower_then_slug (c : N) :
  to_lower ucd c ≫= slug_char = slug_char c ≫= to_lower ucd.
Proof.
  destruct (decide (c < 128)) as [Hlt|Hge].
  - rewrite (lower_basic_latin _ facts c Hlt).
    assert (to_lower ucd hyphen = [hyphen]) as Hhyphen
      by (by rewrite (lower_basic_latin _ facts)).
    split_on_punctuation c;
      try (vm_compute in Hhyphen; vm_compute; by rewrite ?Hhyphen).
    assert (c ∉ slug_punctuation) as Hc.
    { unfold slug_punctuation. rewrite !not_elem_of_cons.
      by repeat split; try apply not_elem_of_nil. }
    rewrite (slug_char_punctuation_free c Hc), !bind_singleton.
    rewrite (lower_basic_latin _ facts c Hlt).
    rewrite slug_char_punctuation_free; [done|].
    by apply ascii_lower_punctuation_free.
  - assert (128 ≤ c) as Hle by lia.
    assert (c ∉ slug_punctuation) as Hc.
    { unfold slug_punctuation, space, left_paren, right_paren, slash,
        apostrophe.
      rewrite !not_elem_of_cons.
      repeat split; try apply not_elem_of_nil; lia. }
    rewrite (slug_char_punctuation_free c Hc), bind_singleton.
    apply bind_punctuation_free.
    apply list.Forall_forall. intros d Hd.
    by apply (lower_elsewhere _ facts c d).
Qed.

Lemma lower_first_is_as_specified (name : str) :
  capital_sigma ∉ name →
  make_id_lower_first ucd name = make_id_as_specified ucd name.
Proof.
  intros Hsigma.
  assert (Forall (λ c, c ≠ capital_sigma) name) as Hplain.
  { apply list.Forall_forall. intros c Hc ->. by apply Hsigma. }
  unfold make_id_lower_first, make_id_as_specified.
  rewrite lower_first_steps, specified_steps. unfold lower.
  rewrite !lower_from_plain by auto using slug_char_no_sigma.
  clear Hsigma Hplain. induction name as [|c name IH]; [done|].
  rewrite !bind_cons, !bind_app, IH. f_equal. apply lower_then_slug.
Qed.

Lemma lower_basic_latin_string (s : str) :
  Forall (λ c, c < 128) s → lower ucd s = ascii_lower <$> s.
Proof.
  intros Hs. unfold lower. rewrite lower_from_plain.
  - induction Hs as [|c s Hc _ IH]; [done|].
    by rewrite bind_cons, fmap_cons, IH, (lower_basic_latin _ facts).
  - apply (list.Forall_impl _ _ _ Hs). unfold capital_sigma.
    intros c Hc. lia.
Qed.

End WithFacts.

(** C3, as the script has it: [make_id] is total, and its result is the
    name lower-cased first and then rewritten: spaces to hyphens,
    parentheses out, slash to hyphen, apostrophes out.  On a name without
    the Greek capital sigma this is what the specification's order gives,
    with the lower-casing last; the two examples hold. *)
Theorem make_id_lowers_first (name : str) :
  lower_keeps_punctuation ucd →
  make_id ucd name = make_id_lower_first ucd name
  ∧ (capital_sigma ∉ name →
     make_id ucd name = make_id_as_specified ucd name)
  ∧ make_id ucd (html "Raupapa Take (Priority Plan)")
    = html "raupapa-take-priority-plan"
  ∧ make_id ucd (html "Waka/Boat") = html "waka-boat".
Proof.
  intros facts. split; [apply make_id_steps|]. split; [|split].
  - intros Hsigma. rewrite make_id_steps.
    by apply lower_first_is_as_specified.
  - rewrite make_id_steps. unfold make_id_lower_first.
    rewrite lower_basic_latin_string by
      (done || (apply (bool_decide_unpack _); by vm_compute)).
    vm_compute. reflexivity.
  - rewrite make_id_steps. unfold make_id_lower_first.
    rewrite lower_basic_latin_string by
      (done || (apply (bool_decide_unpack _); by vm_compute)).
    vm_compute. reflexivity.
Qed.

End CaseProperties.

(** ** The label of a muscle link *)

Section TitleProperties.
Context (ucd : UnicodeData).



Section WithSpace.
Context (space_uncased : is_cased ucd space = false).
Context (hyphen_uncased : is_cased ucd hyphen = false).
Context (space_lower : to_lower ucd space = [space]).





End WithSpace.








End TitleProperties.

(** * The examples *)

Lemma latin_greek_lower_keeps_punctuation : lower_keeps_punctuation latin_greek.
Proof.
  split.
  - intros c Hc. unfold ascii_lower. simpl.
    replace (greek_capital c) with false;
      [rewrite orb_false_r; by destruct (in_range 65 90 c)|].
    unfold greek_capital, in_range.
    destruct (N.leb_spec 913 c); [lia|done].
  - intros c d Hc Hd.
    assert (128 ≤ d) as Hge.
    { simpl in Hd. destruct (in_range 65 90 c || greek_capital c);
        apply list_elem_of_singleton in Hd; lia. }
    unfold slug_punctuation, space, left_paren, right_paren, slash, apostrophe.
    rewrite !not_elem_of_cons.
    repeat split; try apply not_elem_of_nil; lia.
Qed.



Lemma no_tools_placeholder_witness :
  tool_links_of no_tool_lookup [html "karakia"; html "wananga"] = [].
Proof.
  apply (proj2 (proj2 (proj2 (no_tools_placeholder_iff_no_ids no_tool_lookup
                                [html "karakia"; html "wananga"])))).
  - discriminate.
  - repeat constructor.
Defined.

(** Counterexample to C3 as stated, where the sigma rule of [str.lower]
    sees the parenthesis: the script lower-cases before it takes the
    parenthesis out and gets a final sigma, the order of the specification
    gets a medial one. *)
Lemma sigma_before_paren_differs :
  make_id latin_greek sigma_before_paren = [97; small_final_sigma; 98]
  ∧ make_id_as_specified latin_greek sigma_before_paren = [97; small_sigma; 98]
  ∧ make_id latin_greek sigma_before_paren
    ≠ make_id_as_specified latin_greek sigma_before_paren.
Proof. vm_compute. repeat split; discriminate. Qed.

Lemma make_id_lowers_first_witness :
  make_id latin_greek (html "Waka/Boat")
  = make_id_as_specified latin_greek (html "Waka/Boat")
  ∧ make_id latin_greek (html "Waka/Boat") = html "waka-boat".
Proof.
  pose proof (make_id_lowers_first latin_greek (html "Waka/Boat")
                latin_greek_lower_keeps_punctuation) as (_ & Hsame & _ & Hboat).
  split; [|exact Hboat].
  apply Hsame. apply (bool_decide_unpack _). by vm_compute.
Defined.




Lemma dangling_stage_reference_witness :
  tool_entry latin_greek (stages_lookup_of two_stages)
    {| Tool.id := html "hui"; Tool.name := html "Hui";
       Tool.description := html "A gathering"; Tool.video := None;
       Tool.stages := [html "s2"] ++ html "s9" :: [html "s1"];
       Tool.muscles := [] |}
  = tool_entry latin_greek (stages_lookup_of two_stages)
      {| Tool.id := html "hui"; Tool.name := html "Hui";
         Tool.description := html "A gathering"; Tool.video := None;
         Tool.stages := [html "s2"] ++ [html "s1"]; Tool.muscles := [] |}
  ∧ stage_badges_of (stages_lookup_of two_stages)
      ([html "s2"] ++ html "s9" :: [html "s1"])
    = html "<span class=`badge badge-stage`>Rere</span> "
      ++ html "<span class=`badge badge-stage`>Takatu</span> ".
Proof.
  assert (stages_lookup_of two_stages !! html "s9" = None) as Hnone
    by (vm_compute; reflexivity).
  pose proof (dangling_stage_reference_is_left_out latin_greek
                dumps_no_stage (stages_lookup_of two_stages) (html "hui")
                (html "Hui") (html "A gathering") None [html "s2"]
                [html "s1"] [] (html "s9") Hnone) as (Hentry & Hbadges & _).
  split; [exact Hentry|].
  rewrite Hbadges. vm_compute. reflexivity.
Defined.

(** Counterexample to C6 as stated, inserted content that names a token:
    the template has the intro token and no tools token, the title of the
    intro is the text of the tools token, and the page has the tools section
    in it. *)
Lemma token_in_intro_is_filled :
  let template := template_of [Token IntroSlot] in
  let page :=
    build_html latin_greek dumps_no_stage template intro_titled_as_token
      [] [] no_muscles no_sources in
  occurs TOOLS_SECTION template = false
  ∧ is_Some page
  ∧ occurs (build_tools_html latin_greek [] no_stage_lookup) (default [] page)
    = true.
Proof. vm_compute. repeat split; eauto. Qed.

Lemma build_html_fills_every_token_witness :
  build_html latin_greek dumps_no_stage (template_of intro_twice) plain_intro
    [] [] no_muscles no_sources
  = Some (html "<body>" ++ build_intro_html plain_intro ++ html "<hr>"
          ++ build_intro_html plain_intro ++ html "<script>const stages = "
          ++ html "[]" ++ html ";</script></body>").
Proof.
  refine (eq_trans
            (proj1 (proj2 (proj2
               (build_html_fills_every_token latin_greek dumps_no_stage
                  (template_of intro_twice) plain_intro [] [] no_muscles
                  no_sources (default [] (build_sources_html no_sources))
                  _ _)))) _).
  - reflexivity.
  - intros [] [] Hlater; simpl in Hlater; try lia; by vm_compute.
  - vm_compute. reflexivity.
Defined.

(** * Further properties of the script *)

(** ** Where the build fails *)

Lemma item_entry_is_Some (item : Item.t) :
  is_Some (item_entry item) ↔ has_display_name item.
Proof.
  unfold item_entry, item_name_detail, has_display_name.
  destruct (Item.title item) as [title|]; simpl.
  - split; [by left|]. intros _. by destruct (truthy (Item.link item)).
  - destruct (Item.name item) as [name|]; simpl.
    + split; [by right|]. intros _. by destruct (truthy (Item.link item)).
    + split; [by intros [? ?]|]. by intros [[? ?]|[? ?]].
Qed.

Lemma mapM_is_Some_iff {A B} (f : A → option B) (Q : A → Prop) (l : list A) :
  (∀ x, is_Some (f x) ↔ Q x) → is_Some (mapM f l) ↔ Forall Q l.
Proof.
  intros Hf. rewrite mapM_is_Some. split; intros Hall.
  - apply (list.Forall_impl _ _ _ Hall). intros x. apply Hf.
  - apply (list.Forall_impl _ _ _ Hall). intros x. apply Hf.
Qed.

Lemma category_entry_is_Some (category : Category.t) :
  is_Some (category_entry category)
  ↔ Forall has_display_name (Category.items category).
Proof.
  unfold category_entry. rewrite items_loop_mapM.
  rewrite <- (mapM_is_Some_iff item_entry) by apply item_entry_is_Some.
  destruct (mapM item_entry (Category.items category)); simpl.
  - split; eauto.
  - split; by intros [? ?].
Qed.

Lemma build_sources_html_is_Some (sources : Sources.t) :
  is_Some (build_sources_html sources) ↔ all_named sources.
Proof.
  unfold build_sources_html, all_named. rewrite categories_loop_mapM.
  rewrite <- (mapM_is_Some_iff category_entry)
    by apply category_entry_is_Some.
  destruct (mapM category_entry (Sources.categories sources)); simpl.
  - split; eauto.
  - split; by intros [? ?].
Qed.

(** X1: an item of the sources needs a title or a name, and nothing else:
    its entry is rendered exactly when it has one of the two keys, whichever
    of its author, role, description and link are missing.  An item with
    neither fails ([KeyError] on ["name"]) and nothing catches the failure:
    wherever the item stands, its category, the sources fragment and the
    page are not built, whatever the template and the other records are. *)
Theorem nameless_item_fails_the_build (ucd : UnicodeData) {Hotspot : Type}
    (json_dumps : list (StageOverlay.t Hotspot) → str) :
  (∀ item, is_Some (item_entry item) ↔ has_display_name item)
  ∧ (∀ author role description link,
       item_entry
         {| Item.title := None; Item.name := None; Item.author := author;
            Item.role := role; Item.description := description;
            Item.link := link |}
       = None)
  ∧ (∀ sources category item,
       category ∈ Sources.categories sources →
       item ∈ Category.items category →
       ¬ has_display_name item →
       category_entry category = None
       ∧ build_sources_html sources = None
       ∧ ∀ template intro (stages : list (Stage.t Hotspot)) tools muscles,
           build_html ucd json_dumps template intro stages tools muscles
             sources
           = None).
Proof.
  split; [apply item_entry_is_Some|]. split; [done|].
  intros sources category item Hcategory Hitem Hnameless.
  assert (¬ all_named sources) as Hsources.
  { intros Hall. apply Hnameless. unfold all_named in Hall.
    rewrite list.Forall_forall in Hall. specialize (Hall category Hcategory).
    rewrite list.Forall_forall in Hall. by apply Hall. }
  split; [|split].
  - apply eq_None_not_Some. intros Hsome.
    apply category_entry_is_Some in Hsome.
    rewrite list.Forall_forall in Hsome. by apply Hnameless, Hsome.
  - apply eq_None_not_Some. intros Hsome.
    by apply Hsources, build_sources_html_is_Some.
  - intros. apply eq_None_not_Some. intros Hsome.
    apply build_html_succeeds in Hsome.
    by apply Hsources, build_sources_html_is_Some.
Qed.

(** X2: an item that has the key "title" is rendered from its title, author
    and link alone: its entry never fails and is the same whatever its name,
    role and description are, also when the title is the empty string. *)
Theorem titled_item_reads_title_author_link
    (title : str) (name author role description link : option str) :
  item_entry
    {| Item.title := Some title; Item.name := name; Item.author := author;
       Item.role := role; Item.description := description;
       Item.link := link |}
  = item_entry
      {| Item.title := Some title; Item.name := None; Item.author := author;
         Item.role := None; Item.description := None; Item.link := link |}
  ∧ is_Some
      (item_entry
         {| Item.title := Some title; Item.name := name;
            Item.author := author; Item.role := role;
            Item.description := description; Item.link := link |})
  ∧ item_name_detail
      {| Item.title := Some []; Item.name := name; Item.author := author;
         Item.role := role; Item.description := description;
         Item.link := link |}
    = Some ([], first_present [author]).
Proof.
  split; [done|]. split.
  - apply item_entry_is_Some. left. by eexists.
  - unfold item_name_detail. simpl. by destruct (truthy author).
Qed.

(** ** Templates without tokens *)

Lemma replace_absent (s old new : str) :
  occurs old s = false → replace s old new = s.
Proof.
  destruct old as [|x old].
  { intros Hocc. by destruct s. }
  unfold replace. induction s as [|c s IH]; [done|].
  cbn [occurs replace_from]. intros Hocc.
  apply orb_false_elim in Hocc as [-> Hocc]. by rewrite IH.
Qed.

(** X3: a template in which none of the five tokens occurs comes out of the
    build unchanged, whatever the records are, as long as the sources can be
    rendered. *)
Theorem template_without_tokens_is_kept (ucd : UnicodeData) {Hotspot : Type}
    (json_dumps : list (StageOverlay.t Hotspot) → str)
    (template : str) (intro : Intro.t) (stages : list (Stage.t Hotspot))
    (tools : list Tool.t) (muscles : Muscles.t) (sources : Sources.t) :
  (∀ p, occurs (token_of p) template = false) →
  all_named sources →
  build_html ucd json_dumps template intro stages tools muscles sources
  = Some template.
Proof.
  intros Hnone Hnamed. apply build_sources_html_is_Some in Hnamed as [html4 H4].
  unfold build_html. rewrite H4. simpl. f_equal. unfold fill_template.
  rewrite (replace_absent template) by apply (Hnone IntroSlot).
  rewrite (replace_absent template) by apply (Hnone ToolsSlot).
  rewrite (replace_absent template) by apply (Hnone MusclesSlot).
  rewrite (replace_absent template) by apply (Hnone SourcesSlot).
  apply replace_absent, (Hnone StageDataSlot).
Qed.

Lemma template_without_tokens_witness :
  build_html latin_greek dumps_no_stage (html "<html>{INTRO}</html>")
    plain_intro [] [] no_muscles no_sources
  = Some (html "<html>{INTRO}</html>").
Proof.
  apply (template_without_tokens_is_kept latin_greek dumps_no_stage).
  - intros []; reflexivity.
  - constructor.
Defined.

(** ** More on the slug function *)

Lemma make_id_is_lower_then_slug (ucd : UnicodeData) (name : str) :
  make_id ucd name = lower ucd name ≫= slug_char.
Proof.
  rewrite make_id_steps. unfold make_id_lower_first. apply lower_first_steps.
Qed.

Lemma slug_char_is_clean (c : N) :
  Forall (λ d, d ∉ slug_punctuation) (slug_char c).
Proof.
  unfold slug_char, slug_punctuation.
  repeat case_decide; repeat constructor.
  - apply (bool_decide_unpack _). by vm_compute.
  - rewrite !not_elem_of_cons. repeat split; try apply not_elem_of_nil;
      intros ->; tauto.
Qed.

Lemma bind_slug_char_is_clean (s : str) :
  Forall (λ d, d ∉ slug_punctuation) (s ≫= slug_char).
Proof.
  induction s as [|c s IH]; [constructor|]. rewrite bind_cons.
  apply Forall_app. split; [apply slug_char_is_clean|done].
Qed.

(** X4: whatever the name is, its id has no space, no parenthesis, no slash
    and no apostrophe in it. *)
Theorem make_id_has_no_punctuation (ucd : UnicodeData) (name : str) :
  Forall (λ c, c ∉ [space; left_paren; right_paren; slash; apostrophe])
    (make_id ucd name).
Proof. rewrite make_id_is_lower_then_slug. apply bind_slug_char_is_clean. Qed.

Lemma bind_bind_slug (ucd : UnicodeData) (s : str) :
  (s ≫= to_lower ucd) ≫= slug_char = s ≫= slug_of_char ucd.
Proof.
  induction s as [|c s IH]; [done|]. by rewrite !bind_cons, bind_app, IH.
Qed.

Lemma make_id_plain (ucd : UnicodeData) (name : str) :
  capital_sigma ∉ name → make_id ucd name = name ≫= slug_of_char ucd.
Proof.
  intros Hsigma. rewrite make_id_is_lower_then_slug. unfold lower.
  rewrite lower_from_plain; [apply bind_bind_slug|].
  apply list.Forall_forall. intros c Hc ->. by apply Hsigma.
Qed.

(** X5: on names without the Greek capital sigma [make_id] works character
    by character (lower-case mapping, then the rewriting of the
    punctuation), so the id of two names put together is their ids put
    together. *)
Theorem make_id_char_by_char (ucd : UnicodeData) (name1 name2 : str) :
  capital_sigma ∉ name1 → capital_sigma ∉ name2 →
  make_id ucd name1 = name1 ≫= slug_of_char ucd
  ∧ make_id ucd (name1 ++ name2) = make_id ucd name1 ++ make_id ucd name2.
Proof.
  intros H1 H2. split; [by apply make_id_plain|].
  rewrite !make_id_plain; [apply bind_app|done..|].
  rewrite not_elem_of_app. by split.
Qed.

Lemma make_id_char_by_char_witness :
  make_id latin_greek (html "Waka/" ++ html "Boat (A)")
  = make_id latin_greek (html "Waka/") ++ make_id latin_greek (html "Boat (A)").
Proof.
  apply (make_id_char_by_char latin_greek (html "Waka/") (html "Boat (A)"));
    apply (bool_decide_unpack _); by vm_compute.
Defined.

Section StableLower.
Context (ucd : UnicodeData) (stable : lower_is_stable ucd).

Lemma lower_from_is_stable (s before : str) :
  Forall (λ d, to_lower ucd d = [d] ∧ d ≠ capital_sigma)
    (lower_from ucd before s).
Proof.
  revert before. induction s as [|c s IH]; intros before; [constructor|].
  cbn [lower_from]. apply Forall_app. split; [|apply IH].
  unfold lower_at. destruct (N.eqb_spec c capital_sigma) as [->|Hc].
  - constructor; [|constructor].
    destruct (final_sigma ucd before s); split;
      first [apply (lower_final_sigma _ stable)
            | apply (lower_small_sigma _ stable) | done].
  - apply list.Forall_forall. intros d Hd. split.
    + by apply (lower_fixed _ stable c).
    + by apply (lower_not_sigma _ stable c).
Qed.

Lemma slug_char_keeps_stable (s : str) :
  Forall (λ d, to_lower ucd d = [d] ∧ d ≠ capital_sigma) s →
  Forall (λ d, to_lower ucd d = [d] ∧ d ≠ capital_sigma) (s ≫= slug_char).
Proof.
  induction 1 as [|c s Hc _ IH]; [constructor|]. rewrite bind_cons.
  apply Forall_app. split; [|done]. unfold slug_char.
  repeat case_decide; repeat constructor; try apply Hc.
  - apply (lower_hyphen _ stable).
  - done.
Qed.

Lemma lower_of_stable (s : str) :
  Forall (λ d, to_lower ucd d = [d] ∧ d ≠ capital_sigma) s →
  lower ucd s = s.
Proof.
  intros Hs. unfold lower. rewrite lower_from_plain.
  - induction Hs as [|c s [Hc _] _ IH]; [done|].
    by rewrite bind_cons, Hc, IH.
  - apply (list.Forall_impl _ _ _ Hs). by intros d [_ Hd].
Qed.

(** X6: [make_id] applied to an id gives the id again, for tables in which
    lower-casing is stable. *)
Theorem make_id_twice (name : str) :
  make_id ucd (make_id ucd name) = make_id ucd name.
Proof using stable.
  rewrite (make_id_is_lower_then_slug ucd (make_id ucd name)).
  rewrite lower_of_stable.
  - apply bind_punctuation_free. rewrite make_id_is_lower_then_slug.
    apply bind_slug_char_is_clean.
  - rewrite make_id_is_lower_then_slug. apply slug_char_keeps_stable.
    apply lower_from_is_stable.
Qed.

End StableLower.

Lemma latin_greek_lower_is_stable : lower_is_stable latin_greek.
Proof.
  assert (∀ c d, d ∈ to_lower latin_greek c →
          (in_range 65 90 d || greek_capital d) = false) as Hlow.
  { intros c d Hd. simpl in Hd.
    destruct (in_range 65 90 c || greek_capital c) eqn:Hup;
      apply list_elem_of_singleton in Hd; subst d; [|done].
    unfold greek_capital, in_range in *.
    destruct (N.leb_spec 65 c), (N.leb_spec c 90), (N.leb_spec 913 c),
      (N.leb_spec c 937), (N.eqb_spec c 930); simpl in Hup;
      try discriminate Hup;
      destruct (N.leb_spec 65 (c + 32)), (N.leb_spec (c + 32) 90),
        (N.leb_spec 913 (c + 32)), (N.leb_spec (c + 32) 937),
        (N.eqb_spec (c + 32) 930); simpl; try done; lia. }
  split.
  - intros c d Hd. simpl. by rewrite (Hlow c d Hd).
  - intros c d Hd ->. by specialize (Hlow c _ Hd).
  - reflexivity.
  - reflexivity.
  - reflexivity.
Qed.

Lemma make_id_twice_witness :
  make_id latin_greek (make_id latin_greek (html "Raupapa Take (Priority Plan)"))
  = make_id latin_greek (html "Raupapa Take (Priority Plan)").
Proof.
  apply (make_id_twice latin_greek latin_greek_lower_is_stable).
Defined.

(** ** What the lookups resolve *)

Lemma lookup_of_sound {A} (key : A → str) (records : list A) (id : str)
    (r : A) :
  foldl (λ lookup r, <[key r := r]> lookup) (∅ : gmap str A) records !! id
  = Some r →
  r ∈ records ∧ key r = id.
Proof.
  rewrite lookup_of_last. intros Hlast.
  apply last_Some in Hlast as [l Hl].
  assert (r ∈ filter (λ r, key r = id) records) as Hin.
  { rewrite Hl. apply elem_of_app. right. by left. }
  apply list_elem_of_filter in Hin as [Hkey Hin]. by split.
Qed.

Lemma lookup_of_is_Some {A} (key : A → str) (records : list A) (id : str) :
  is_Some
    (foldl (λ lookup r, <[key r := r]> lookup) (∅ : gmap str A) records !! id)
  ↔ id ∈ key <$> records.
Proof.
  rewrite lookup_of_last, last_is_Some. split.
  - intros Hne. destruct (filter _ records) as [|r l] eqn:Hf; [done|].
    assert (r ∈ filter (λ r, key r = id) records) as Hin
      by (rewrite Hf; by left).
    apply list_elem_of_filter in Hin as [<- Hin].
    by apply list_elem_of_fmap_2.
  - intros Hin Hnil. apply list_elem_of_fmap in Hin as (r & -> & Hr).
    assert (r ∈ filter (λ r', key r' = key r) records) as Hin
      by (by apply list_elem_of_filter).
    rewrite Hnil in Hin. by apply elem_of_nil in Hin.
Qed.

Lemma lookup_of_unique {A} (key : A → str) (records : list A) (r : A) :
  NoDup (key <$> records) → r ∈ records →
  foldl (λ lookup r, <[key r := r]> lookup) (∅ : gmap str A) records !! key r
  = Some r.
Proof.
  induction records as [|x records IH] using rev_ind; intros Hnodup Hin.
  - by apply elem_of_nil in Hin.
  - rewrite foldl_snoc. rewrite fmap_app in Hnodup.
    apply list.NoDup_app in Hnodup as (Hrecords & Hfresh & _).
    apply elem_of_app in Hin as [Hin|Hin].
    + rewrite lookup_insert_ne; [by apply IH|].
      intros Heq. apply (Hfresh (key r)).
      * by apply list_elem_of_fmap_2.
      * rewrite <- Heq. by left.
    + apply list_elem_of_singleton in Hin as ->. apply lookup_insert_eq.
Qed.

(** X7: the tool lookup and the stage lookup resolve exactly the ids that
    occur in their list, each to a record of the list that has this id;
    when the ids of the list are all different, every record is found
    under its own id. *)
Theorem lookups_resolve_the_listed_ids {Hotspot : Type} :
  (∀ tools id tool,
     tools_lookup_of tools !! id = Some tool →
     tool ∈ tools ∧ Tool.id tool = id)
  ∧ (∀ tools id,
       is_Some (tools_lookup_of tools !! id) ↔ id ∈ Tool.id <$> tools)
  ∧ (∀ tools tool,
       NoDup (Tool.id <$> tools) → tool ∈ tools →
       tools_lookup_of tools !! Tool.id tool = Some tool)
  ∧ (∀ (stages : list (Stage.t Hotspot)) id stage,
       stages_lookup_of stages !! id = Some stage →
       stage ∈ stages ∧ Stage.id stage = id)
  ∧ (∀ (stages : list (Stage.t Hotspot)) id,
       is_Some (stages_lookup_of stages !! id) ↔ id ∈ Stage.id <$> stages)
  ∧ (∀ (stages : list (Stage.t Hotspot)) stage,
       NoDup (Stage.id <$> stages) → stage ∈ stages →
       stages_lookup_of stages !! Stage.id stage = Some stage).
Proof.
  split; [|split; [|split; [|split; [|split]]]]; intros.
  - by apply (lookup_of_sound Tool.id).
  - apply (lookup_of_is_Some Tool.id).
  - by apply (lookup_of_unique Tool.id).
  - by apply (lookup_of_sound Stage.id).
  - apply (lookup_of_is_Some Stage.id).
  - by apply (lookup_of_unique Stage.id).
Qed.

(** X9: every pair (id, name) that the overlay of a stage holds comes from
    the lists: the id is one that the stage lists, and the name is the name
    of a tool of the tool list that has this id. *)
Theorem overlay_pairs_come_from_the_lists {Hotspot : Type}
    (tools : list Tool.t) (stage : Stage.t Hotspot) :
  Forall (λ ref,
            ToolRef.id ref ∈ Stage.tools stage
            ∧ ∃ tool, tool ∈ tools ∧ Tool.id tool = ToolRef.id ref
                      ∧ Tool.name tool = ToolRef.name ref)
    (StageOverlay.tools (overlay_of (tools_lookup_of tools) stage)).
Proof.
  simpl. apply list.Forall_forall. intros ref Hin. split.
  - assert (ToolRef.id ref
            ∈ ToolRef.id <$> overlay_tools (tools_lookup_of tools)
                               (Stage.tools stage)) as Hid
      by (by apply list_elem_of_fmap_2).
    rewrite overlay_tools_ids in Hid.
    by apply list_elem_of_filter in Hid as [_ Hid].
  - pose proof (overlay_tools_names (tools_lookup_of tools)
                  (Stage.tools stage)) as Hnames.
    rewrite list.Forall_forall in Hnames. specialize (Hnames ref Hin).
    destruct (tools_lookup_of tools !! ToolRef.id ref) as [tool|] eqn:Hlook;
      [|done].
    simpl in Hnames. injection Hnames as Hname.
    apply (lookup_of_sound Tool.id) in Hlook as [Htool Hid].
    by exists tool.
Qed.

(** ** Reference lists *)

(** X11: the reference lists are rendered as lists, not as sets: the stage
    badges, the muscle links and the overlay pairs of two lists put together
    are those of the first followed by those of the second, and so are the
    tool links of a muscle when neither list is empty; an id that is listed
    twice is rendered twice. *)
Theorem references_are_rendered_in_sequence (ucd : UnicodeData)
    {Hotspot : Type} (stages_lookup : gmap str (Stage.t Hotspot))
    (tools_lookup : gmap str Tool.t) (ids1 ids2 : list str) :
  stage_badges_of stages_lookup (ids1 ++ ids2)
  = stage_badges_of stages_lookup ids1 ++ stage_badges_of stages_lookup ids2
  ∧ muscle_links_of ucd (ids1 ++ ids2)
    = muscle_links_of ucd ids1 ++ muscle_links_of ucd ids2
  ∧ overlay_tools tools_lookup (ids1 ++ ids2)
    = overlay_tools tools_lookup ids1 ++ overlay_tools tools_lookup ids2
  ∧ (ids1 ≠ [] → ids2 ≠ [] →
     tool_links_of tools_lookup (ids1 ++ ids2)
     = tool_links_of tools_lookup ids1 ++ tool_links_of tools_lookup ids2).
Proof.
  split; [|split; [|split]].
  - rewrite !stage_badges_of_resolved, omap_app. apply join_app.
  - rewrite !muscle_links_of_bind. apply bind_app.
  - apply omap_app.
  - intros H1 H2. rewrite !tool_links_of_nonempty, omap_app; try done.
    + apply join_app.
    + destruct ids1; done.
Qed.

Lemma references_in_sequence_witness :
  tool_links_of (tools_lookup_of [hui_tool]) ([html "hui"] ++ [html "hui"])
  = html "<a href=`#tool-hui` class=`tool-link`>Hui</a> "
    ++ html "<a href=`#tool-hui` class=`tool-link`>Hui</a> ".
Proof.
  refine (eq_trans
            (proj2 (proj2 (proj2
               (references_are_rendered_in_sequence latin_greek
                  no_stage_lookup (tools_lookup_of [hui_tool])
                  [html "hui"] [html "hui"]))) _ _) _).
  - discriminate.
  - discriminate.
  - vm_compute. reflexivity.
Defined.

(** ** Text inside a fragment *)

Lemma occurs_before (p s c : str) :
  occurs p s = true → occurs p (s ++ c) = true.
Proof.
  induction s as [|x s IH]; simpl.
  - intros Hp. destruct p; [|done]. by destruct c.
  - intros Hp. apply orb_prop in Hp as [Hp|Hp].
    + change (x :: s ++ c) with ((x :: s) ++ c).
      by rewrite (is_prefix_extend p (x :: s) c).
    + rewrite IH by done. apply orb_true_r.
Qed.

Lemma occurs_framed (x whole a c : str) :
  whole = a ++ x ++ c → occurs x whole = true.
Proof.
  intros ->. apply occurs_after, occurs_at_front, is_prefix_app.
Qed.

Lemma is_prefix_app_both (a p s : str) :
  is_prefix (a ++ p) (a ++ s) = is_prefix p s.
Proof. induction a as [|x a IH]; simpl; [done|]. by rewrite N.eqb_refl. Qed.

Lemma occurs_in_tool_entry (ucd : UnicodeData) {Hotspot : Type}
    (stages_lookup : gmap str (Stage.t Hotspot)) (tool : Tool.t) :
  occurs (html "<div id=`tool-" ++ Tool.id tool ++ html "`")
    (tool_entry ucd stages_lookup tool) = true.
Proof.
  unfold tool_entry. cbv zeta.
  change (html "
        <div id=`tool-") with (html "
        " ++ html "<div id=`tool-").
  rewrite <- (app_assoc (html "
        ")).
  apply occurs_after, occurs_at_front.
  rewrite is_prefix_app_both, is_prefix_app_both. reflexivity.
Qed.

(** X8: a tool link in the muscles section never dangles: when an id
    resolves in the lookup made of the tool list, the link goes to the
    anchor "#tool-" with this id, and the tools section made of the same
    list has an entry whose id attribute is "tool-" with this id. *)
Theorem tool_link_has_its_target (ucd : UnicodeData) {Hotspot : Type}
    (stages_lookup : gmap str (Stage.t Hotspot)) (tools : list Tool.t)
    (tool_id : str) (tool : Tool.t) :
  tools_lookup_of tools !! tool_id = Some tool →
  occurs (html "href=`#tool-" ++ tool_id ++ html "`") (tool_link tool_id tool)
  = true
  ∧ occurs (html "<div id=`tool-" ++ tool_id ++ html "`")
      (build_tools_html ucd tools stages_lookup)
    = true.
Proof.
  intros Hlook. split.
  - unfold tool_link.
    change (html "<a href=`#tool-") with (html "<a " ++ html "href=`#tool-").
    rewrite <- (app_assoc (html "<a ")).
    apply occurs_after, occurs_at_front.
    rewrite is_prefix_app_both, is_prefix_app_both. reflexivity.
  - apply (lookup_of_sound Tool.id) in Hlook as [Hin <-].
    apply list_elem_of_split in Hin as (tools1 & tools2 & ->).
    unfold build_tools_html. cbv zeta.
    rewrite tools_html_of_bind, bind_app, bind_cons.
    apply occurs_after, occurs_before, occurs_after, occurs_before.
    apply occurs_in_tool_entry.
Qed.

Lemma tool_link_has_its_target_witness :
  let hui :=
    {| Tool.id := html "hui"; Tool.name := html "Hui";
       Tool.description := html "A gathering"; Tool.video := None;
       Tool.stages := []; Tool.muscles := [] |} in
  occurs (html "<div id=`tool-" ++ html "hui" ++ html "`")
    (build_tools_html latin_greek [hui] no_stage_lookup)
  = true.
Proof.
  intros hui.
  refine (proj2 (tool_link_has_its_target latin_greek no_stage_lookup [hui]
                   (html "hui") hui _)).
  vm_compute. reflexivity.
Defined.

(** X10: the renderers put the text of a record into the markup as it is,
    without escaping: the title, subtitle and hook of the intro, the heading
    and content of a section, the name and description of a tool and of a
    muscle, and the display name and detail of a source item occur
    unchanged in what is rendered for them. *)
Theorem record_text_is_not_escaped (ucd : UnicodeData) {Hotspot : Type}
    (stages_lookup : gmap str (Stage.t Hotspot))
    (tools_lookup : gmap str Tool.t) :
  (∀ intro,
     occurs (Intro.title intro) (build_intro_html intro) = true
     ∧ occurs (Intro.subtitle intro) (build_intro_html intro) = true
     ∧ occurs (Intro.hook intro) (build_intro_html intro) = true)
  ∧ (∀ section,
       occurs (IntroSection.heading section) (intro_block section) = true
       ∧ occurs (IntroSection.content section) (intro_block section) = true)
  ∧ (∀ tool,
       occurs (Tool.name tool) (tool_entry ucd stages_lookup tool) = true
       ∧ occurs (Tool.description tool) (tool_entry ucd stages_lookup tool)
         = true)
  ∧ (∀ muscle,
       occurs (Muscle.name muscle) (muscle_entry tools_lookup muscle) = true
       ∧ occurs (Muscle.description muscle)
           (muscle_entry tools_lookup muscle) = true)
  ∧ (∀ item name detail entry,
       item_name_detail item = Some (name, detail) →
       item_entry item = Some entry →
       occurs name entry = true ∧ occurs detail entry = true).
Proof.
  split; [|split; [|split; [|split]]].
  - intros intro. unfold build_intro_html. cbv zeta.
    repeat split; eapply occurs_framed; find_frame.
  - intros section. unfold intro_block.
    repeat split; eapply occurs_framed; find_frame.
  - intros tool. unfold tool_entry. cbv zeta.
    repeat split; eapply occurs_framed; find_frame.
  - intros muscle. unfold muscle_entry. cbv zeta.
    repeat split; eapply occurs_framed; find_frame.
  - intros item name detail entry Hname. unfold item_entry.
    rewrite Hname. cbn [mbind option_bind].
    destruct (truthy (Item.link item)) as [link|]; intros Hentry;
      apply (inj Some) in Hentry; subst entry;
      split; eapply occurs_framed; find_frame.
Qed.

Lemma occurs_in_frame (p whole h s t : str) :
  whole = h ++ s ++ t → occurs p s = true → occurs p whole = true.
Proof. intros -> Hs. by apply occurs_after, occurs_before. Qed.

Lemma occurs_in_muscle_entry (tools_lookup : gmap str Tool.t)
    (muscle : Muscle.t) :
  occurs (html "<div id=`muscle-" ++ Muscle.id muscle ++ html "`")
    (muscle_entry tools_lookup muscle) = true.
Proof.
  unfold muscle_entry. cbv zeta.
  change (html "
            <div id=`muscle-") with (html "
            " ++ html "<div id=`muscle-").
  rewrite <- (app_assoc (html "
            ")).
  apply occurs_after, occurs_at_front.
  rewrite is_prefix_app_both, is_prefix_app_both. reflexivity.
Qed.

(** X12: a muscle link of a tool has its target whenever the taxonomy has a
    muscle with the linked id: the link goes to the anchor "#muscle-" with
    this id, and the muscles section has an entry whose id attribute is
    "muscle-" with this id, in whichever dimension the muscle is. *)
Theorem muscle_link_has_its_target_in_taxonomy (ucd : UnicodeData)
    (tools_lookup : gmap str Tool.t) (muscles_data : Muscles.t)
    (dimension : Dimension.t) (muscle : Muscle.t) :
  dimension ∈ Muscles.dimensions muscles_data →
  muscle ∈ Dimension.muscles dimension →
  occurs (html "href=`#muscle-" ++ Muscle.id muscle ++ html "`")
    (muscle_link ucd (Muscle.id muscle)) = true
  ∧ occurs (html "<div id=`muscle-" ++ Muscle.id muscle ++ html "`")
      (build_muscles_html muscles_data tools_lookup) = true.
Proof.
  intros Hdimension Hmuscle. split.
  - unfold muscle_link. cbv zeta.
    change (html "<a href=`#muscle-")
      with (html "<a " ++ html "href=`#muscle-").
    rewrite <- (app_assoc (html "<a ")).
    apply occurs_after, occurs_at_front.
    rewrite is_prefix_app_both, is_prefix_app_both. reflexivity.
  - apply list_elem_of_split in Hdimension as (dims1 & dims2 & Hdims).
    apply list_elem_of_split in Hmuscle as (muscles1 & muscles2 & Hmuscles).
    unfold build_muscles_html. cbv zeta. rewrite dimensions_html_of_bind.
    eapply (occurs_in_frame _ _ _
              (Muscles.dimensions muscles_data
                 ≫= dimension_entry tools_lookup)); [find_frame|].
    rewrite Hdims, bind_app, bind_cons.
    apply occurs_after, occurs_before.
    unfold dimension_entry. cbv zeta. rewrite muscles_html_of_bind.
    eapply (occurs_in_frame _ _ _
              (Dimension.muscles dimension ≫= muscle_entry tools_lookup));
      [find_frame|].
    rewrite Hmuscles, bind_app, bind_cons.
    apply occurs_after, occurs_before, occurs_in_muscle_entry.
Qed.

Lemma muscle_link_has_its_target_witness :
  let listening :=
    {| Muscle.id := html "listening"; Muscle.name := html "Listening";
       Muscle.description := html "Hearing what is said";
       Muscle.tools := [] |} in
  let relating :=
    {| Dimension.id := html "relating"; Dimension.name := html "Whanaungatanga";
       Dimension.name_english := html "Relating";
       Dimension.description := html "Being with others";
       Dimension.muscles := [listening] |} in
  occurs (html "<div id=`muscle-" ++ html "listening" ++ html "`")
    (build_muscles_html
       {| Muscles.intro := html "Capabilities";
          Muscles.dimensions := [relating] |}
       no_tool_lookup)
  = true.
Proof.
  intros listening relating.
  refine (proj2 (muscle_link_has_its_target_in_taxonomy latin_greek
                   no_tool_lookup
                   {| Muscles.intro := html "Capabilities";
                      Muscles.dimensions := [relating] |}
                   relating listening _ _)).
  - by left.
  - by left.
Defined.
